(** * switch-predb: the release processing pipeline of [main.py]

    A shallow embedding of the pure transformations of [main.py]
    ([mask_title_id], the title-id regular expression, [humansize],
    [make_twitter_post]) and of its stateful pipeline
    ([find_new_releases], [get_details], [parse_nfo], [get_info],
    [upload_nfo], [post_to_twitter], [handle_releases], [main_loop]),
    followed by the properties the specification states about them. *)

From Stdlib Require Import ZArith QArith Ascii String List Lia Bool.
From stdpp Require Import base gmap strings.
Import ListNotations.

Local Open Scope Z_scope.

(** ** Python strings

    A Python [str] is a [string]; the algorithms below work on its
    characters ([list ascii]).  A character above 127 stands for the image
    of that byte under the cp437 codec, which is never an ASCII letter or
    digit. *)

Definition chars (s : string) : list ascii := list_ascii_of_string s.
Definition str (l : list ascii) : string := string_of_list_ascii l.

Definition code (c : ascii) : Z := Z.of_N (N_of_ascii c).
Definition chr (n : Z) : ascii := ascii_of_N (Z.to_N n).

Definition between (lo hi : Z) (c : ascii) : bool :=
  (lo <=? code c) && (code c <=? hi).

(** [str.upper] on one character (ASCII letters only). *)
Definition upper_char (c : ascii) : ascii :=
  if between 97 122 c then chr (code c - 32) else c.

Definition upper (l : list ascii) : list ascii := map upper_char l.

(** ** Integers in positional notation *)

(** Value of a hexadecimal digit, in either case. *)
Definition hex_val (c : ascii) : option Z :=
  if between 48 57 c then Some (code c - 48)
  else if between 65 70 c then Some (code c - 55)
  else if between 97 102 c then Some (code c - 87)
  else None.

Definition is_hex (c : ascii) : bool :=
  match hex_val c with Some _ => true | None => false end.

(** Digit character as [hex] and [str] print it (lowercase letters). *)
Definition digit_char (d : Z) : ascii :=
  if d <? 10 then chr (48 + d) else chr (87 + d).

(** Digits of [n >= 0] in base [b], most significant first.  The fuel is
    one more than the bit length of [n], and is never exhausted. *)
Fixpoint to_base_aux (fuel : nat) (b n : Z) (acc : list Z) : list Z :=
  match fuel with
  | O => acc
  | S f =>
      let acc' := (n mod b) :: acc in
      if n / b =? 0 then acc' else to_base_aux f b (n / b) acc'
  end.

Definition to_base (b n : Z) : list Z :=
  to_base_aux (S (Z.to_nat (Z.log2 n))) b n [].

Definition of_base (b : Z) (ds : list Z) : Z :=
  fold_left (fun a d => a * b + d) ds 0.

(** [hex(n)]: sign, the prefix 0x, lowercase digits. *)
Definition hex (n : Z) : list ascii :=
  (if n <? 0 then chars "-" else []) ++ chars "0x"
    ++ map digit_char (to_base 16 (Z.abs n)).

(** [str(n)] for an integer. *)
Definition str_of_Z (n : Z) : list ascii :=
  (if n <? 0 then chars "-" else []) ++ map digit_char (to_base 10 (Z.abs n)).

Fixpoint hex_vals (l : list ascii) : option (list Z) :=
  match l with
  | [] => Some []
  | c :: l' =>
      match hex_val c, hex_vals l' with
      | Some d, Some ds => Some (d :: ds)
      | _, _ => None
      end
  end.

(** [int(s, 16)] on a non-empty string of hexadecimal digits.  [None]
    stands for every other argument (where Python raises [ValueError], or
    applies its rules for signs, the 0x prefix, underscores and blanks);
    [parse_nfo] never passes such an argument, see [find_title_id_hex]. *)
Definition int16 (s : list ascii) : option Z :=
  match s with
  | [] => None
  | _ => option_map (of_base 16) (hex_vals s)
  end.

(** ** Title-id masking *)

Definition TITLE_ID_BASE_MASK : Z := 0xFFFFFFFFFFFFE000.

(** [s[n:]] for [n >= 0]. *)
Definition slice_from {A} (n : nat) (l : list A) : list A := skipn n l.

Definition mask_chars (title_id : list ascii) : option (list ascii) :=
  match int16 title_id with
  | Some v =>
      Some (chars "0" ++ upper (slice_from 2 (hex (Z.land v TITLE_ID_BASE_MASK))))
  | None => None
  end.

Definition mask_title_id (title_id : string) : option string :=
  option_map str (mask_chars (chars title_id)).

(** The string that [mask_title_id] prints for the masked value [v]. *)
Definition masked_digits (v : Z) : list ascii :=
  chars "0" ++ upper (map digit_char (to_base 16 v)).

(** ** The title-id regular expression

    The patterns of [main.py] are sequences of single-character atoms, each
    repeated greedily between a minimum and an optional maximum number of
    times.  [match_here] is the backtracking matcher of [re] restricted to
    such patterns: every atom first takes the longest run it can, and gives
    characters back one at a time while the rest of the pattern fails. *)

Record atom := Atom {
  atom_class : ascii -> bool;
  atom_min : nat;
  atom_max : option nat
}.

Definition regex := list atom.

Definition lit (c : ascii) : atom := Atom (Ascii.eqb c) 1 (Some 1%nat).

Fixpoint run_length (p : ascii -> bool) (cap : option nat) (s : list ascii) : nat :=
  match s with
  | [] => O
  | c :: s' =>
      if p c then
        match cap with
        | None => S (run_length p None s')
        | Some O => O
        | Some (S m) => S (run_length p (Some m) s')
        end
      else O
  end.

(** Tries the counts [n], [n-1], ..., [lo] in this order. *)
Fixpoint backtrack (n lo : nat) (k : nat -> option nat) : option nat :=
  if (n <? lo)%nat then None
  else match k n with
       | Some r => Some r
       | None => match n with
                 | O => None
                 | S n' => backtrack n' lo k
                 end
       end.

(** Length of the match of [r] at the start of [s], if there is one. *)
Fixpoint match_here (r : regex) (s : list ascii) : option nat :=
  match r with
  | [] => Some O
  | a :: r' =>
      backtrack (run_length (atom_class a) (atom_max a) s) (atom_min a)
        (fun n => option_map (Nat.add n) (match_here r' (skipn n s)))
  end.

(** [pattern.search(s)]: the leftmost position with a match, as
    (start, length); the scan goes up to the end of [s] included. *)
Fixpoint search_from (r : regex) (s : list ascii) (pos : nat) : option (nat * nat) :=
  match match_here r s with
  | Some n => Some (pos, n)
  | None =>
      match s with
      | [] => None
      | _ :: s' => search_from r s' (S pos)
      end
  end.

Definition search (r : regex) (s : list ascii) : option (nat * nat) :=
  search_from r s O.

(** [match.group()] *)
Definition group (s : list ascii) (m : nat * nat) : list ascii :=
  firstn (snd m) (skipn (fst m) s).

(** The class [A-Fa-f0-9X]. *)
Definition title_id_class (c : ascii) : bool :=
  between 65 70 c || between 97 102 c || between 48 57 c || Ascii.eqb c "X".

(** [re.compile(r"01[A-Fa-f0-9X]{12,}")] *)
Definition TITLE_ID_REGEX : regex :=
  [lit "0"; lit "1"; Atom title_id_class 12 None].

(** [s.replace(old, new)] for single characters. *)
Definition replace_char (old new : ascii) (s : list ascii) : list ascii :=
  map (fun c => if Ascii.eqb c old then new else c) s.

(** Lines 206-212 of [parse_nfo]: the raw title id found in the text of an
    NFO, [None] when the pattern does not occur. *)
Definition find_title_id (nfo : list ascii) : option (list ascii) :=
  match search TITLE_ID_REGEX nfo with
  | Some m => Some (replace_char "X" "0" (group nfo m))
  | None => None
  end.

(** An occurrence of the pattern at index [i] of [s]: the characters 0
    and 1, then at least twelve characters of the class [p]. *)
Definition occurs_at (p : ascii -> bool) (s : list ascii) (i : nat) : Prop :=
  exists digits rest,
    skipn i s = chars "01" ++ digits ++ rest /\
    (12 <= length digits)%nat /\ forallb p digits = true.

(** No character of the class [p] comes next. *)
Definition ends_run (p : ascii -> bool) (after : list ascii) : Prop :=
  match after with
  | [] => True
  | c :: _ => p c = false
  end.

(** The extraction as the specification words it: the placeholder is
    accepted, and replaced, in both cases. *)
Definition spec_placeholder (c : ascii) : bool :=
  Ascii.eqb c "X" || Ascii.eqb c "x".

Definition spec_title_id_class (c : ascii) : bool :=
  is_hex c || spec_placeholder c.

Definition SPEC_TITLE_ID_REGEX : regex :=
  [lit "0"; lit "1"; Atom spec_title_id_class 12 None].

Definition spec_find_title_id (nfo : list ascii) : option (list ascii) :=
  match search SPEC_TITLE_ID_REGEX nfo with
  | Some m =>
      Some (map (fun c => if spec_placeholder c then "0"%char else c) (group nfo m))
  | None => None
  end.

(** ** Human-readable sizes

    [humansize] starts from an [int] and turns it into a [float] at the
    first division.  Every [float] it computes is the quotient of a
    binary64 value that is at least 1024 by a power of two, which binary64
    represents exactly; so a [float] is modelled by the rational it
    denotes, and the only rounding is that of the conversion from [int]. *)

Inductive number :=
  | PyInt (n : Z)
  | PyFloat (q : Q).

(** [float(n)]: the nearest binary64 value, ties to even; [None] is
    [OverflowError]. *)
Definition float_of_int (n : Z) : option Q :=
  let a := Z.abs n in
  let e := Z.log2 a - 52 in
  if e <=? 0 then Some (inject_Z n)
  else
    let m := Z.shiftr a e in
    let r := Z.land a (Z.ones e) in
    let half := Z.shiftl 1 (e - 1) in
    let m' := if (half <? r) || ((r =? half) && Z.odd m) then m + 1 else m in
    let v := Z.shiftl m' e in
    if Z.shiftl 1 1024 <=? v then None else Some (inject_Z (Z.sgn n * v)).

Definition to_float (x : number) : option Q :=
  match x with
  | PyInt n => float_of_int n
  | PyFloat q => Some q
  end.

(** [size >= 1024] *)
Definition ge_1024 (x : number) : bool :=
  match x with
  | PyInt n => 1024 <=? n
  | PyFloat q => Qle_bool (inject_Z 1024) q
  end.

(** [size / 1024.] *)
Definition div_1024 (x : number) : option number :=
  match to_float x with
  | Some q => Some (PyFloat (q / inject_Z 1024))
  | None => None
  end.

Definition two_digits (n : Z) : list ascii :=
  [digit_char (n / 10); digit_char (n mod 10)].

(** ['%.2f' % q]: the exact value rounded to two decimals, ties to even. *)
Definition format_2f (q : Q) : list ascii :=
  let num := Z.abs (Qnum q) * 100 in
  let den := Z.pos (Qden q) in
  let f := num / den in
  let r := num mod den in
  let h := if (den <? 2 * r) || ((2 * r =? den) && Z.odd f) then f + 1 else f in
  (if Qnum q <? 0 then chars "-" else [])
    ++ str_of_Z (h / 100) ++ chars "." ++ two_digits (h mod 100).

(** [s.rstrip(c)] for a single character. *)
Fixpoint drop_while (p : ascii -> bool) (l : list ascii) : list ascii :=
  match l with
  | [] => []
  | c :: l' => if p c then drop_while p l' else l
  end.

Definition rstrip (c : ascii) (s : list ascii) : list ascii :=
  rev (drop_while (Ascii.eqb c) (rev s)).

Definition suffixes : list string := ["B"; "KiB"; "MiB"; "GiB"; "TiB"; "PiB"]%string.

(** The [while] loop of [humansize]; [rem] is [len(suffixes) - 1 - index],
    so that [index < len(suffixes) - 1] reads [rem <> 0]. *)
Fixpoint humansize_loop (rem : nat) (size : number) (index : nat) : option (number * nat) :=
  match rem with
  | O => Some (size, index)
  | S rem' =>
      if ge_1024 size then
        match div_1024 size with
        | Some size' => humansize_loop rem' size' (S index)
        | None => None
        end
      else Some (size, index)
  end.

(** The value after [k] divisions. *)
Definition scaled (k : nat) (q : Q) : Q :=
  Nat.iter k (fun x => x / inject_Z 1024)%Q q.

(** [None] is the [OverflowError] of a size beyond the range of [float]. *)
Definition humansize_chars (size : Z) : option (list ascii) :=
  match humansize_loop (length suffixes - 1) (PyInt size) O with
  | Some (size', index) =>
      match to_float size' with
      | Some q =>
          Some (rstrip "." (rstrip "0" (format_2f q)) ++ chars " "
                  ++ chars (nth index suffixes ""%string))
      | None => None
      end
  | None => None
  end.

Definition humansize (size : Z) : option string :=
  option_map str (humansize_chars size).

(** ** Records of the pipeline *)

(** One entry of a catalog scan. *)
Record candidate := Candidate {
  release : string;
  hasNFO : bool
}.

(** The details of a release: the names of its [files], and the size and
    checksum of its [archived-files]. *)
Record archived_file := ArchivedFile {
  file_size : Z;
  file_crc : string
}.

Record details := Details {
  files : list string;
  archived_files : list archived_file
}.

(** One uploaded image: its source url and the handle of the sink. *)
Record media_item := MediaItem {
  media_url : string;
  media_id : Z
}.

(** The dictionary built by [get_info]; [upload_nfo] overwrites its [nfo]
    entry and [upload_media] its [media] entry. *)
Record release_info := ReleaseInfo {
  info_tid : string;
  info_masked_tid : string;
  info_title : string;
  info_size : string;
  info_crc : string;
  info_proof : option string;
  info_nfo : string;
  info_thumb : string;
  info_media : list media_item
}.

Definition set_nfo (url : string) (i : release_info) : release_info :=
  ReleaseInfo (info_tid i) (info_masked_tid i) (info_title i) (info_size i)
    (info_crc i) (info_proof i) url (info_thumb i) (info_media i).

Definition set_media (m : list media_item) (i : release_info) : release_info :=
  ReleaseInfo (info_tid i) (info_masked_tid i) (info_title i) (info_size i)
    (info_crc i) (info_proof i) (info_nfo i) (info_thumb i) m.

(** The body of a post; the key [media] is there when an image was uploaded. *)
Record tweet := Tweet {
  text : string;
  media_ids : option (list string)
}.

(** ** The announcement *)

(** [s.rfind(c)]: the last index of [c] in [s], or -1. *)
Fixpoint rfind_from (c : ascii) (s : list ascii) (i last : Z) : Z :=
  match s with
  | [] => last
  | x :: s' => rfind_from c s' (i + 1) (if Ascii.eqb x c then i else last)
  end.

Definition rfind (c : ascii) (s : list ascii) : Z := rfind_from c s 0 (-1).

(** [s[k:]], a negative [k] counting from the end. *)
Definition py_slice_from {A} (k : Z) (s : list A) : list A :=
  if k <? 0 then skipn (Z.to_nat (Z.of_nat (length s) + k)) s
  else skipn (Z.to_nat k) s.

(** [title[title.rfind('-')+1:]] *)
Definition uploader (title : string) : string :=
  str (py_slice_from (rfind "-" (chars title) + 1) (chars title)).

Definition NEWLINE : string := String (chr 10) EmptyString.

(** The template of [make_twitter_post] around its first field. *)
Definition post_text (by_whom : string) (i : release_info) : string :=
  NEWLINE +:+ "New Release by " +:+ by_whom +:+ "!" +:+ NEWLINE
    +:+ "    " +:+ NEWLINE
    +:+ info_title i +:+ " [" +:+ info_tid i +:+ "][" +:+ info_crc i +:+ "]" +:+ NEWLINE
    +:+ "Size: " +:+ info_size i +:+ NEWLINE
    +:+ NEWLINE
    +:+ "View on Tinfoil: https://tinfoil.io/Title/" +:+ info_masked_tid i +:+ NEWLINE
    +:+ "View on eShop: https://ec.nintendo.com/apps/" +:+ info_masked_tid i +:+ "/US"
    +:+ NEWLINE.

Definition make_twitter_post (i : release_info) : tweet :=
  Tweet (post_text (uploader (info_title i)) i)
    (match info_media i with
     | [] => None
     | m => Some (map (fun image => str (str_of_Z (media_id image))) m)
     end).

(** ** State, exceptions and the outside world

    The globals of [main.py] and the effects of its calls are the fields of
    [world].  The calls of [log] write to the logger and to the alerting
    sinks only; they change none of these fields and are left out, and so
    are the failures of the sinks themselves. *)

Inductive exn :=
  | TypeError | AttributeError | IndexError | KeyError | ValueError | OverflowError.

Inductive outcome (A : Type) :=
  | Ok (a : A)
  | Raise (e : exn).
Arguments Ok {A} a.
Arguments Raise {A} e.

Record request := Request {
  caller_name : string;
  method : string;
  url : string
}.

Record world := World {
  OLD_HASH_SET : gset string;
  CACHE_releases : gmap string (option details);  (* CACHE["releases"] *)
  CACHE_nfos : gmap string string;                (* CACHE["nfos"] *)
  requests : list request;        (* HTTP requests sent, the latest first *)
  mongo : list release_info;      (* documents inserted, the latest first *)
  slept : nat                     (* calls of time.sleep(ONE_MINUTE) *)
}.

Definition start : world := World ∅ ∅ ∅ [] [] O.

(** A computation: it ends with a value or an exception, in a new state. *)
Definition M (A : Type) : Type := world -> outcome A * world.

#[global] Instance M_ret : MRet M := fun A a w => (Ok a, w).

#[global] Instance M_bind : MBind M := fun A B f m w =>
  match m w with
  | (Ok a, w') => f a w'
  | (Raise e, w') => (Raise e, w')
  end.

Definition raise {A} (e : exn) : M A := fun w => (Raise e, w).

Definition lift {A} (o : outcome A) : M A := fun w => (o, w).

Definition get {A} (f : world -> A) : M A := fun w => (Ok (f w), w).

Definition modify (f : world -> world) : M unit := fun w => (Ok tt, f w).

Definition add_seen (h : string) (w : world) : world :=
  World ({[h]} ∪ OLD_HASH_SET w) (CACHE_releases w) (CACHE_nfos w)
    (requests w) (mongo w) (slept w).

Definition cache_release (k : string) (d : option details) (w : world) : world :=
  World (OLD_HASH_SET w) (<[k:=d]> (CACHE_releases w)) (CACHE_nfos w)
    (requests w) (mongo w) (slept w).

Definition cache_nfo (k v : string) (w : world) : world :=
  World (OLD_HASH_SET w) (CACHE_releases w) (<[k:=v]> (CACHE_nfos w))
    (requests w) (mongo w) (slept w).

Definition add_request (r : request) (w : world) : world :=
  World (OLD_HASH_SET w) (CACHE_releases w) (CACHE_nfos w)
    (r :: requests w) (mongo w) (slept w).

Definition insert_one (i : release_info) (w : world) : world :=
  World (OLD_HASH_SET w) (CACHE_releases w) (CACHE_nfos w)
    (requests w) (i :: mongo w) (slept w).

Definition one_more_sleep (w : world) : world :=
  World (OLD_HASH_SET w) (CACHE_releases w) (CACHE_nfos w)
    (requests w) (mongo w) (S (slept w)).

(** What [requests] gets for a request: an exception of the transport, or
    a response with its status and its content, already read the way the
    caller asks ([apply]). *)
Inductive reply (A : Type) :=
  | RequestException
  | Response (status_code : Z) (payload : A).
Arguments RequestException {A}.
Arguments Response {A} status_code payload.

(** The servers.  The first argument of every field is the number of
    requests sent before, so that a server may answer the same request
    differently later on. *)
Record network := Network {
  srrdb_scan : nat -> reply (list candidate);
  srrdb_details : nat -> string -> reply details;
  download : nat -> string -> reply string;
  zipline : nat -> string -> string -> reply (list string);
  twitter_media : nat -> string -> string -> reply Z;
  twitter_tweets : nat -> tweet -> reply string
}.

Record config := Config {
  debug : bool;              (* config["common"]["debug"] *)
  renderer : string;         (* config["render"]["renderer"] *)
  mongo_enabled : bool;      (* config["mongo"]["enabled"] *)
  zipline_url : string       (* config["zipline"]["url"] *)
}.

(** The three rendering backends, from the text of an NFO to the bytes of
    the encoded image; they may raise. *)
Record renderers := Renderers {
  render_builtin : string -> outcome string;
  render_pyansi : string -> outcome string;
  render_infekt : string -> outcome string
}.

Definition SRRDB_SCAN_URL : string :=
  "https://api.srrdb.com/v1/search/category:nsw/order:date-desc".
Definition SRRDB_RELEASE_URL (release_name : string) : string :=
  "https://api.srrdb.com/v1/details/" +:+ release_name.
Definition SRRDB_FILE_URL (release_name file_name : string) : string :=
  "https://www.srrdb.com/download/file/" +:+ release_name +:+ "/" +:+ file_name.
Definition TINFOIL_URL (title_id : string) : string :=
  "https://tinfoil.media/ti/" +:+ title_id +:+ "/1024/1024/".
Definition TWITTER_MEDIA_ENDPOINT_URL : string :=
  "https://upload.twitter.com/1.1/media/upload.json".
Definition POST_TWEET_URL : string := "https://api.twitter.com/2/tweets".

(** [needle in s] *)
Fixpoint starts_with (p s : list ascii) : bool :=
  match p, s with
  | [], _ => true
  | _ :: _, [] => false
  | a :: p', b :: s' => Ascii.eqb a b && starts_with p' s'
  end.

Fixpoint contains (p s : list ascii) : bool :=
  starts_with p s || match s with
                     | [] => false
                     | _ :: s' => contains p s'
                     end.

(** What the body of a [for] loop asks for when it ends. *)
Inductive control := Next | Return.

(** The replies for which [request_url] returns its default. *)
Definition failed {A} (r : reply A) : bool :=
  match r with
  | RequestException => true
  | Response status_code _ => negb ((200 <=? status_code) && (status_code <? 299))
  end.

(** ** The pipeline *)

Section Pipeline.

(** [md5(s.encode()).hexdigest()] *)
Variable md5_hexdigest : string -> string.
Variable cfg : config.
Variable net : network.
Variable backends : renderers.

Definition DEBUG : bool := debug cfg.

(** [request_url] with [default=None], as all its callers have it.  The
    reply is that of the server named by [send]. *)
Definition request_url {A} (url caller method : string)
    (send : nat -> reply A) : M (option A) :=
  fun w =>
    let w' := add_request (Request caller method url) w in
    match send (length (requests w)) with
    | RequestException => (Ok None, w')
    | Response status_code payload =>
        if (200 <=? status_code) && (status_code <? 299)
        then (Ok (Some payload), w')
        else (Ok None, w')
    end.

(** Subscripting the outcome of [request_url]: [None] has no items. *)
Definition scan_srrdb : M (list candidate) :=
  response ← request_url SRRDB_SCAN_URL "SCN" "get" (srrdb_scan net);
  match response with
  | Some results => mret results
  | None => raise TypeError
  end.

Definition release_hash (r : candidate) : string := md5_hexdigest (release r).

(** The releases that the generator [find_new_releases] yields when it is
    run to its end from the set [seen], and the set it leaves. *)
Fixpoint new_releases (initial : bool) (releases : list candidate)
    (seen : gset string) : list candidate * gset string :=
  match releases with
  | [] => ([], seen)
  | r :: rest =>
      if initial then new_releases initial rest ({[release_hash r]} ∪ seen)
      else if decide (release_hash r ∈ seen) then new_releases initial rest seen
      else
        let (news, seen') := new_releases initial rest ({[release_hash r]} ∪ seen) in
        (r :: news, seen')
  end.

Definition is_initial (seen : gset string) : bool :=
  bool_decide (seen = ∅) && negb DEBUG.

Definition find_new_releases (releases : list candidate) (seen : gset string)
    : list candidate * gset string :=
  new_releases (is_initial seen) releases seen.

(** The releases yielded over the scans of a process, in order, every
    generator being run to its end. *)
Fixpoint new_over_scans (scans : list (list candidate)) (seen : gset string)
    : list candidate * gset string :=
  match scans with
  | [] => ([], seen)
  | releases :: later =>
      let (news, seen') := find_new_releases releases seen in
      let (more, seen'') := new_over_scans later seen' in
      (news ++ more, seen'')
  end.

(** [for release in find_new_releases(releases): body], the generator and
    its consumer in turn: the generator runs up to its next [yield], on the
    global set, and is resumed when the body asks for the next release. *)
Fixpoint for_new_releases (body : candidate -> M control) (initial : bool)
    (releases : list candidate) : M unit :=
  match releases with
  | [] => mret tt
  | r :: rest =>
      seen ← get OLD_HASH_SET;
      if initial then
        modify (add_seen (release_hash r));; for_new_releases body initial rest
      else if decide (release_hash r ∈ seen) then for_new_releases body initial rest
      else
        modify (add_seen (release_hash r));;
        c ← body r;
        match c with
        | Next => for_new_releases body initial rest
        | Return => mret tt
        end
  end.

Definition get_details (release_name : string) : M (option details) :=
  cache ← get CACHE_releases;
  match cache !! release_name with
  | Some cached => mret cached
  | None =>
      d ← request_url (SRRDB_RELEASE_URL release_name) "DET" "get"
            (fun t => srrdb_details net t release_name);
      modify (cache_release release_name d);;
      mret d
  end.

(** [parse_nfo]; the content of the response is decoded text. *)
Definition parse_nfo (nfo_url : string) : M (option (string * string)) :=
  response ← request_url nfo_url "NFO" "get" (fun t => download net t nfo_url);
  match response with
  | None => raise AttributeError
  | Some nfo =>
      if bool_decide (nfo = ""%string) then mret None
      else
        match find_title_id (chars nfo) with
        | None => mret None
        | Some title_id =>
            match mask_chars title_id with
            | None => raise ValueError
            | Some masked_title_id =>
                nfos ← get CACHE_nfos;
                (if decide (is_Some (nfos !! str title_id)) then mret tt
                 else modify (cache_nfo (str title_id) nfo));;
                mret (Some (str title_id, str masked_title_id))
            end
        end
  end.

Definition get_info (release_name : string) : M (option release_info) :=
  d ← get_details release_name;
  match d with
  | None => mret None
  | Some d =>
      match files d !! 1%nat with
      | None => raise IndexError
      | Some second =>
          let proof_url :=
            if contains (chars "Proof") (chars second)
            then Some (SRRDB_FILE_URL release_name second) else None in
          match files d !! 0%nat with
          | None => raise IndexError
          | Some first =>
              let nfo_url := SRRDB_FILE_URL release_name first in
              parse_result ← parse_nfo nfo_url;
              match parse_result with
              | None => mret None
              | Some (title_id, masked_title_id) =>
                  match archived_files d !! 0%nat with
                  | None => raise IndexError
                  | Some archived =>
                      match humansize (file_size archived) with
                      | None => raise OverflowError
                      | Some size =>
                          mret (Some (ReleaseInfo title_id masked_title_id
                                        release_name size (file_crc archived)
                                        proof_url nfo_url
                                        (TINFOIL_URL masked_title_id) []))
                      end
                  end
              end
          end
      end
  end.

Definition add_to_mongo (i : release_info) : M unit := modify (insert_one i).

(** The three rendering functions read the text cached by [parse_nfo]. *)
Definition render_with (backend : string -> outcome string)
    (i : release_info) : M string :=
  nfos ← get CACHE_nfos;
  match nfos !! info_tid i with
  | None => raise KeyError
  | Some nfo => lift (backend nfo)
  end.

(** [upload_nfo] returns the url and leaves it in [release_info]. *)
Definition upload_nfo (i : release_info) (buffer mode : string)
    : M (option string * release_info) :=
  response ← request_url (zipline_url cfg) "RNR" "post"
               (fun t => zipline net t (info_title i +:+ "." +:+ mode) buffer);
  match response with
  | None => mret (None, i)
  | Some uploaded =>
      match uploaded !! 0%nat with
      | None => raise IndexError
      | Some url => mret (Some url, set_nfo url i)
      end
  end.

(** [not x] for a value that is [None] or a string. *)
Definition falsy (x : option string) : bool :=
  match x with
  | None => true
  | Some s => bool_decide (s = ""%string)
  end.

(** The loop of [upload_media] over the image types left, [media] being
    the list [release_info["media"]] so far. *)
Fixpoint upload_media_loop (title_id : string)
    (images : list (string * option string)) (media : list media_item)
    : M (list media_item) :=
  match images with
  | [] => mret media
  | (image_type, image) :: rest =>
      match image with
      | Some image_url =>
          if falsy image then upload_media_loop title_id rest media
          else
            image_content ← request_url image_url "UMD" "get"
                              (fun t => download net t image_url);
            match image_content with
            | None => upload_media_loop title_id rest media
            | Some content =>
                response ← request_url TWITTER_MEDIA_ENDPOINT_URL "UMD" "post"
                             (fun t => twitter_media net t
                                (image_type +:+ "_" +:+ title_id +:+ ".jpg") content);
                match response with
                | None => upload_media_loop title_id rest media
                | Some id =>
                    upload_media_loop title_id rest (media ++ [MediaItem image_url id])
                end
            end
      | None => upload_media_loop title_id rest media
      end
  end.

Definition upload_media (i : release_info) : M release_info :=
  media ← upload_media_loop (info_tid i)
             [("thumb"%string, Some (info_thumb i));
              ("nfo"%string, Some (info_nfo i));
              ("proof"%string, info_proof i)] [];
  mret (set_media media i).

(** [post_to_twitter] returns the post and the answer of the server, here
    the identifier of the post; [release_info] has its media. *)
Definition post_to_twitter (i : release_info)
    : M (tweet * option string * release_info) :=
  i' ← upload_media i;
  let content := make_twitter_post i' in
  response ← request_url POST_TWEET_URL "TWT" "post"
               (fun t => twitter_tweets net t content);
  mret (content, response, i').

Definition sleep : M unit := modify one_more_sleep.

(** The body of the loop of [handle_releases]. *)
Definition handle_release (r : candidate) : M control :=
  let release_name := release r in
  if negb (hasNFO r) then mret Next
  else
    info ← get_info release_name;
    match info with
    | None => mret Next
    | Some release_info =>
        '(mode, backend) ←
          (if String.eqb (renderer cfg) "pyansi"
           then mret ("png"%string, render_pyansi backends)
           else if String.eqb (renderer cfg) "builtin"
           then mret ("jpeg"%string, render_builtin backends)
           else if String.eqb (renderer cfg) "infekt"
           then mret ("png"%string, render_infekt backends)
           else raise ValueError);
        buffer ← render_with backend release_info;
        '(uploaded, release_info) ← upload_nfo release_info buffer mode;
        if falsy uploaded then mret Next
        else
          (if mongo_enabled cfg then add_to_mongo release_info else mret tt);;
          '(post, response, release_info) ← post_to_twitter release_info;
          match response with
          | None => raise TypeError       (* response['data']['id'] *)
          | Some _ => if debug cfg then mret Return else sleep;; mret Next
          end
    end.

Definition handle_releases (releases : list candidate) : M unit :=
  seen ← get OLD_HASH_SET;
  for_new_releases handle_release (is_initial seen) releases.

(** [cycles] turns of the loop of [main_loop]. *)
Fixpoint main_loop (cycles : nat) : M unit :=
  match cycles with
  | O => mret tt
  | S n =>
      releases ← scan_srrdb;
      handle_releases releases;;
      if debug cfg then mret tt else sleep;; main_loop n
  end.

End Pipeline.

(** What a run of the deduplicator from the set [seen] guarantees of the
    releases it yields and of the set it leaves. *)
Definition fresh_run (md5_hexdigest : string -> string) (seen : gset string)
    (out : list candidate * gset string) : Prop :=
  (seen ⊆ snd out) /\
  NoDup (map (release_hash md5_hexdigest) (fst out)) /\
  forall c, In c (fst out) ->
    (release_hash md5_hexdigest c ∉ seen) /\ (release_hash md5_hexdigest c ∈ snd out).

(** A computation that leaves the set of seen keys as it is. *)
Definition keeps_seen {A} (m : M A) : Prop :=
  forall w, OLD_HASH_SET (snd (m w)) = OLD_HASH_SET w.

(** A loop body that never asks to leave the loop. *)
Definition goes_on (m : M control) : Prop :=
  forall w w', m w <> (Ok Return, w').

(** ** Scenarios

    One release of the catalog with its details, servers that answer with
    the given replies where the scenarios differ, and two configurations. *)

Definition game : candidate := Candidate "Game-GRP" true.

Definition game_details : details :=
  Details ["game.nfo"; "game.Proof.jpg"]%string [ArchivedFile 1536 "DEADBEEF"].

Definition game_nfo_url : string := SRRDB_FILE_URL "Game-GRP" "game.nfo".

Definition servers (det : nat -> reply details) (nfo : reply string)
    (upload : reply (list string)) (tweet : reply string) : network :=
  Network (fun _ => Response 200 [game])
    (fun t _ => det t)
    (fun _ u => if String.eqb u game_nfo_url then nfo else Response 200 "image"%string)
    (fun _ _ _ => upload)
    (fun _ _ _ => Response 200 77)
    (fun _ _ => tweet).

Definition unreachable : network :=
  Network (fun _ => RequestException) (fun _ _ => RequestException)
    (fun _ _ => RequestException) (fun _ _ _ => RequestException)
    (fun _ _ _ => RequestException) (fun _ _ => RequestException).

Definition uploaded : reply (list string) :=
  Response 200 ["https://zipline.example/u/Game-GRP.jpeg"%string].

(** The details server fails once, then answers. *)
Definition down_then_up (t : nat) : reply details :=
  if (t =? 0)%nat then Response 503 game_details else Response 200 game_details.

Definition up (t : nat) : reply details := Response 200 game_details.

Definition game_nfo : string := "Title ID: 0100ABCDEF123456".

Definition production : config :=
  Config false "builtin" true "https://zipline.example/api/upload".

Definition single_pass : config :=
  Config true "builtin" true "https://zipline.example/api/upload".

Definition painters : renderers :=
  Renderers (fun _ => Ok "jpeg"%string) (fun _ => Ok "png"%string)
    (fun _ => Ok "png"%string).

(** A release name without a hyphen. *)
Definition plain_info : release_info :=
  ReleaseInfo "0100ABCDEF123456" "0100ABCDEF122000" "Game" "1.5 KiB" "DEADBEEF"
    None "https://zipline.example/u/Game.jpeg"
    (TINFOIL_URL "0100ABCDEF122000") [].

(** A state in which the keys of [seen] have been recorded and nothing else
    has happened. *)
Definition after_scans (seen : gset string) : world := World seen ∅ ∅ [] [] O.

(** ** States that only grow *)

(** From [w] to [w'] no key is forgotten, no cache entry is removed or
    changed, and the records of requests, documents and sleeps are only
    added to. *)
Definition grows (w w' : world) : Prop :=
  (OLD_HASH_SET w ⊆ OLD_HASH_SET w') /\
  (CACHE_releases w ⊆ CACHE_releases w') /\
  (CACHE_nfos w ⊆ CACHE_nfos w') /\
  (requests w `suffix_of` requests w') /\
  (mongo w `suffix_of` mongo w') /\
  (slept w <= slept w')%nat.

Definition steady {A} (m : M A) : Prop := forall w, grows w (snd (m w)).

(** The state [w] with the set of seen keys replaced. *)
Definition with_seen (seen : gset string) (w : world) : world :=
  World seen (CACHE_releases w) (CACHE_nfos w) (requests w) (mongo w) (slept w).

(** The record of [game] in the scenarios, and details with a single file. *)
Definition game_info : release_info :=
  ReleaseInfo "0100ABCDEF123456" "0100ABCDEF122000" "Game-GRP" "1.5 KiB" "DEADBEEF"
    (Some (SRRDB_FILE_URL "Game-GRP" "game.Proof.jpg")) game_nfo_url
    (TINFOIL_URL "0100ABCDEF122000") [].

Definition lone_details : details :=
  Details ["game.nfo"%string] [ArchivedFile 1536 "DEADBEEF"].

Definition lone (t : nat) : reply details := Response 200 lone_details.


(** A scan that is always empty. *)
Definition idle : network :=
  Network (fun _ => Response 200 []) (fun _ _ => RequestException)
    (fun _ _ => RequestException) (fun _ _ _ => RequestException)
    (fun _ _ _ => RequestException) (fun _ _ => RequestException).

(** ** The layout of the builtin renderer

    [render_nfo] without the pixels: the size of the image that it creates
    and the texts that it draws, each with its position. *)

(** [s.split(sep)] for a single character. *)
Fixpoint split_char (sep : ascii) (s : list ascii) : list (list ascii) :=
  match s with
  | [] => [[]]
  | c :: s' =>
      if Ascii.eqb c sep then [] :: split_char sep s'
      else match split_char sep s' with
           | line :: lines => (c :: line) :: lines
           | [] => [[c]]
           end
  end.

(** [sep.join(lines)] *)
Fixpoint join (sep : ascii) (lines : list (list ascii)) : list ascii :=
  match lines with
  | [] => []
  | line :: rest =>
      match rest with
      | [] => line
      | _ :: _ => line ++ sep :: join sep rest
      end
  end.

(** [max(xs)]; [None] is the [ValueError] of an empty argument. *)
Definition py_max (xs : list Z) : option Z :=
  match xs with
  | [] => None
  | x :: xs' => Some (fold_left Z.max xs' x)
  end.

Record render_config := RenderConfig {
  font_width : Z;     (* config["render"]["font_width"] *)
  font_size : Z       (* config["render"]["font_size"] *)
}.

Record drawing := Drawing {
  canvas_size : Z * Z;                    (* Image.new("RGB", nfo_size, ...) *)
  texts : list ((Z * Z) * list ascii)     (* nfo_draw.text((0, offset), line, ...) *)
}.

(** The loop over the lines, from the offset [current_offset]. *)
Fixpoint draw_lines (nfo_font_height : Z) (nfo_lines : list (list ascii))
    (current_offset : Z) : list ((Z * Z) * list ascii) :=
  match nfo_lines with
  | [] => []
  | line :: rest =>
      ((0, current_offset), line)
        :: draw_lines nfo_font_height rest (current_offset + nfo_font_height)
  end.

Definition render_nfo_layout (rc : render_config) (nfo : list ascii)
    : option drawing :=
  let nfo_font_height := font_size rc in
  let nfo_lines := split_char (chr 10) nfo in
  match py_max (map (fun line => Z.of_nat (length line)) nfo_lines) with
  | None => None
  | Some longest_line =>
      Some (Drawing (font_width rc * longest_line, 14 * Z.of_nat (length nfo_lines))
              (draw_lines nfo_font_height nfo_lines 0))
  end.

(** * Properties *)

(** ** Positional notation: printing and reading back *)

Section Positional.

Variable b : Z.
Hypothesis base_ge_2 : 2 <= b.

Lemma to_base_aux_value (fuel : nat) : forall n acc,
  0 <= n < 2 ^ Z.of_nat fuel ->
  fold_left (fun x d => x * b + d) (to_base_aux fuel b n acc) 0
  = fold_left (fun x d => x * b + d) acc n.
Proof.
  induction fuel as [|f IH]; intros n acc Hn.
  - simpl in *. replace n with 0 by lia. reflexivity.
  - cbn [to_base_aux].
    assert (Hdm : n = b * (n / b) + n mod b) by (apply Z.div_mod; lia).
    destruct (Z.eqb_spec (n / b) 0) as [Hq|Hq].
    + cbn [fold_left]. f_equal. rewrite Hq in Hdm. lia.
    + rewrite IH.
      * cbn [fold_left]. f_equal. lia.
      * assert (0 <= n / b) by (apply Z.div_pos; lia).
        split; [assumption|].
        rewrite Nat2Z.inj_succ, Z.pow_succ_r in Hn by lia.
        assert (0 <= n mod b) by (apply Z.mod_pos_bound; lia).
        nia.
Qed.

Lemma to_base_aux_digits (fuel : nat) : forall n acc,
  Forall (fun d => 0 <= d < b) acc ->
  Forall (fun d => 0 <= d < b) (to_base_aux fuel b n acc).
Proof.
  induction fuel as [|f IH]; intros n acc Hacc; [exact Hacc|].
  cbn [to_base_aux].
  assert (Forall (fun d => 0 <= d < b) (n mod b :: acc)).
  { constructor; [apply Z.mod_pos_bound; lia | exact Hacc]. }
  destruct (n / b =? 0); auto.
Qed.

Lemma fuel_enough (n : Z) :
  0 <= n -> 0 <= n < 2 ^ Z.of_nat (S (Z.to_nat (Z.log2 n))).
Proof.
  intros Hn. split; [exact Hn|].
  rewrite Nat2Z.inj_succ, Z2Nat.id by apply Z.log2_nonneg.
  destruct (Z.eq_dec n 0) as [->|Hz]; [reflexivity|].
  apply Z.log2_spec. lia.
Qed.

Lemma of_base_to_base (n : Z) : 0 <= n -> of_base b (to_base b n) = n.
Proof.
  intros Hn. unfold of_base, to_base.
  rewrite to_base_aux_value by (apply fuel_enough; exact Hn).
  reflexivity.
Qed.

Lemma to_base_digits (n : Z) : Forall (fun d => 0 <= d < b) (to_base b n).
Proof. apply to_base_aux_digits. constructor. Qed.

End Positional.

(** ** Masking *)

Lemma hex_val_digit (d : Z) :
  0 <= d < 16 -> hex_val (upper_char (digit_char d)) = Some d.
Proof.
  intros Hd.
  assert (H : d = 0 \/ d = 1 \/ d = 2 \/ d = 3 \/ d = 4 \/ d = 5 \/ d = 6 \/ d = 7
              \/ d = 8 \/ d = 9 \/ d = 10 \/ d = 11 \/ d = 12 \/ d = 13 \/ d = 14
              \/ d = 15) by lia.
  repeat (destruct H as [->|H]; [reflexivity|]). subst d. reflexivity.
Qed.

Lemma hex_vals_digits (ds : list Z) :
  Forall (fun d => 0 <= d < 16) ds ->
  hex_vals (upper (map digit_char ds)) = Some ds.
Proof.
  induction 1 as [|d ds Hd _ IH]; [reflexivity|].
  cbn [map upper hex_vals]. fold (upper (map digit_char ds)).
  rewrite hex_val_digit by exact Hd. rewrite IH. reflexivity.
Qed.

Lemma int16_masked_digits (v : Z) : 0 <= v -> int16 (masked_digits v) = Some v.
Proof.
  intros Hv. unfold masked_digits, int16. cbn [chars list_ascii_of_string app].
  cbn [hex_vals]. change (hex_val "0") with (Some 0).
  rewrite hex_vals_digits by (apply to_base_digits; lia).
  cbn [option_map]. f_equal.
  unfold of_base. cbn [fold_left]. change (0 * 16 + 0) with 0.
  apply (of_base_to_base 16); lia.
Qed.

Lemma mask_nonneg (v : Z) : 0 <= Z.land v TITLE_ID_BASE_MASK.
Proof. apply Z.land_nonneg. right. unfold TITLE_ID_BASE_MASK. lia. Qed.

Lemma mask_chars_value (x : list ascii) (v : Z) :
  int16 x = Some v ->
  mask_chars x = Some (masked_digits (Z.land v TITLE_ID_BASE_MASK)).
Proof.
  intros Hx. unfold mask_chars. rewrite Hx. f_equal.
  unfold masked_digits, hex. f_equal. f_equal.
  pose proof (mask_nonneg v) as Hm.
  destruct (Z.ltb_spec (Z.land v TITLE_ID_BASE_MASK) 0) as [Hneg|_]; [lia|].
  rewrite Z.abs_eq by exact Hm. reflexivity.
Qed.

Lemma mask_chars_idempotent (x m : list ascii) :
  mask_chars x = Some m -> mask_chars m = Some m.
Proof.
  intros Hm. destruct (int16 x) as [v|] eqn:Hx.
  - rewrite (mask_chars_value x v Hx) in Hm. injection Hm as <-.
    rewrite (mask_chars_value _ _ (int16_masked_digits _ (mask_nonneg v))).
    rewrite <- Z.land_assoc, Z.land_diag. reflexivity.
  - unfold mask_chars in Hm. rewrite Hx in Hm. discriminate.
Qed.

Lemma hex_vals_total (x : list ascii) :
  forallb is_hex x = true -> exists ds, hex_vals x = Some ds.
Proof.
  induction x as [|c x IH]; intros H; [exists []; reflexivity|].
  cbn [forallb] in H. apply andb_true_iff in H as [Hc Hx].
  destruct (IH Hx) as [ds Hds]. unfold is_hex in Hc.
  cbn [hex_vals]. destruct (hex_val c) as [d|]; [|discriminate].
  rewrite Hds. eauto.
Qed.

Lemma int16_total (x : list ascii) :
  x <> [] -> forallb is_hex x = true -> exists v, int16 x = Some v.
Proof.
  intros Hne Hx. destruct (hex_vals_total x Hx) as [ds Hds].
  unfold int16. destruct x; [congruence|]. rewrite Hds. cbn. eauto.
Qed.

(** ** Searching the title id *)

Section Runs.

Variable p : ascii -> bool.

Lemma run_length_split (s : list ascii) :
  forallb p (firstn (run_length p None s) s) = true /\
  ends_run p (skipn (run_length p None s) s).
Proof.
  induction s as [|c s [IH1 IH2]]; [split; [reflexivity | exact I]|].
  cbn [run_length]. destruct (p c) eqn:Hc.
  - cbn [firstn skipn forallb]. rewrite Hc, IH1. split; [reflexivity | exact IH2].
  - cbn [firstn skipn forallb ends_run]. split; [reflexivity | exact Hc].
Qed.

Lemma run_length_le (s : list ascii) : (run_length p None s <= length s)%nat.
Proof.
  induction s as [|c s IH]; [reflexivity|].
  cbn [run_length length]. destruct (p c); lia.
Qed.

Lemma run_length_app (d rest : list ascii) :
  forallb p d = true ->
  run_length p None (d ++ rest) = (length d + run_length p None rest)%nat.
Proof.
  induction d as [|c d IH]; intros Hd; [reflexivity|].
  cbn [forallb] in Hd. apply andb_true_iff in Hd as [Hc Hd].
  cbn [app run_length length]. rewrite Hc, IH by exact Hd. reflexivity.
Qed.

Lemma run_length_ends (rest : list ascii) :
  ends_run p rest -> run_length p None rest = O.
Proof.
  destruct rest as [|c rest]; [reflexivity|].
  cbn [ends_run run_length]. intros ->. reflexivity.
Qed.

Lemma match_here_last (s : list ascii) :
  match_here [Atom p 12 None] s =
  if (run_length p None s <? 12)%nat then None else Some (run_length p None s).
Proof.
  cbn [match_here atom_class atom_max atom_min].
  destruct (run_length p None s) as [|n] eqn:Hn; [reflexivity|].
  cbn [backtrack].
  destruct (S n <? 12)%nat; [reflexivity|].
  cbn [option_map]. f_equal. lia.
Qed.

Lemma run_length_cap_0 (q : ascii -> bool) (s : list ascii) :
  run_length q (Some O) s = O.
Proof. destruct s as [|c s]; [reflexivity|]. cbn. destruct (q c); reflexivity. Qed.

Lemma match_here_lit (c : ascii) (r : regex) (s : list ascii) :
  match_here (lit c :: r) s =
  match s with
  | x :: s' => if Ascii.eqb c x then option_map S (match_here r s') else None
  | [] => None
  end.
Proof.
  cbn [match_here lit atom_class atom_max atom_min].
  destruct s as [|x s']; [reflexivity|].
  cbn [run_length]. destruct (Ascii.eqb c x); [|reflexivity].
  rewrite run_length_cap_0. simpl. change (skipn 0 s') with s'.
  destruct (match_here r s'); reflexivity.
Qed.

Lemma match_here_pattern (s : list ascii) :
  match_here [lit "0"; lit "1"; Atom p 12 None] s =
  match s with
  | a :: b :: rest =>
      if Ascii.eqb "0" a && Ascii.eqb "1" b && (12 <=? run_length p None rest)%nat
      then Some (2 + run_length p None rest)%nat else None
  | _ => None
  end.
Proof.
  rewrite match_here_lit.
  destruct s as [|a s]; [reflexivity|].
  rewrite match_here_lit.
  destruct s as [|b rest]; [destruct (Ascii.eqb "0" a); reflexivity|].
  rewrite match_here_last.
  destruct (Ascii.eqb "0" a), (Ascii.eqb "1" b); try reflexivity.
  cbn [andb].
  destruct (Nat.leb_spec 12 (run_length p None rest)) as [H|H];
    destruct (Nat.ltb_spec (run_length p None rest) 12) as [H'|H']; try lia;
    reflexivity.
Qed.

Lemma match_here_some (s : list ascii) (n : nat) :
  match_here [lit "0"; lit "1"; Atom p 12 None] s = Some n <->
  exists digits after,
    s = chars "01" ++ digits ++ after /\ (12 <= length digits)%nat /\
    forallb p digits = true /\ ends_run p after /\ n = (2 + length digits)%nat.
Proof.
  rewrite match_here_pattern. split.
  - destruct s as [|a [|b rest]]; try discriminate.
    destruct (Ascii.eqb_spec "0" a) as [<-|]; [|discriminate].
    destruct (Ascii.eqb_spec "1" b) as [<-|]; [|discriminate].
    cbn [andb].
    destruct (Nat.leb_spec 12 (run_length p None rest)) as [H|H]; [|discriminate].
    intros [= <-].
    destruct (run_length_split rest) as [H1 H2].
    exists (firstn (run_length p None rest) rest),
           (skipn (run_length p None rest) rest).
    rewrite length_firstn, Nat.min_l by apply run_length_le.
    cbn [chars list_ascii_of_string app]. rewrite firstn_skipn. auto.
  - intros (digits & after & -> & Hlen & Hd & Hend & ->).
    cbn [chars list_ascii_of_string app].
    rewrite run_length_app, run_length_ends by assumption.
    change (Ascii.eqb "0" "0") with true.
    change (Ascii.eqb "1" "1") with true. cbn [andb].
    rewrite Nat.add_0_r.
    destruct (Nat.leb_spec 12 (length digits)); [reflexivity | lia].
Qed.

Lemma match_here_none (s : list ascii) :
  match_here [lit "0"; lit "1"; Atom p 12 None] s = None <-> ~ occurs_at p s 0.
Proof.
  rewrite match_here_pattern. unfold occurs_at. change (skipn 0 s) with s. split.
  - intros Hn (digits & rest & -> & Hlen & Hd).
    cbn [chars list_ascii_of_string app] in Hn.
    change (Ascii.eqb "0" "0") with true in Hn.
    change (Ascii.eqb "1" "1") with true in Hn. cbn [andb] in Hn.
    rewrite run_length_app in Hn by exact Hd.
    destruct (Nat.leb_spec 12 (length digits + run_length p None rest));
      [discriminate | lia].
  - intros Hno.
    destruct s as [|a [|b rest]]; try reflexivity.
    destruct (Ascii.eqb_spec "0" a) as [<-|]; [|reflexivity].
    destruct (Ascii.eqb_spec "1" b) as [<-|]; [|reflexivity].
    cbn [andb].
    destruct (Nat.leb_spec 12 (run_length p None rest)) as [H|H]; [|reflexivity].
    exfalso. apply Hno.
    destruct (run_length_split rest) as [H1 _].
    exists (firstn (run_length p None rest) rest),
           (skipn (run_length p None rest) rest).
    rewrite length_firstn, Nat.min_l by apply run_length_le.
    cbn [chars list_ascii_of_string app]. rewrite firstn_skipn. auto.
Qed.

End Runs.

Lemma occurs_at_shift (p : ascii -> bool) (s : list ascii) (i : nat) :
  occurs_at p s i <-> occurs_at p (skipn i s) 0.
Proof. unfold occurs_at. change (skipn 0 (skipn i s)) with (skipn i s). reflexivity. Qed.

(** [search_from] returns the least index with a match. *)
Lemma search_from_least (r : regex) (s : list ascii) : forall pos,
  match search_from r s pos with
  | Some (first, n) =>
      exists i, first = (pos + i)%nat /\ (i <= length s)%nat /\
        match_here r (skipn i s) = Some n /\
        forall j, (j < i)%nat -> match_here r (skipn j s) = None
  | None => forall j, match_here r (skipn j s) = None
  end.
Proof.
  induction s as [|c s IH]; intros pos; cbn [search_from].
  - destruct (match_here r []) as [n|] eqn:Hm.
    + exists O. rewrite Nat.add_0_r. change (skipn 0 []) with (@nil ascii).
      repeat split; auto. lia.
    + intros j. rewrite skipn_nil. exact Hm.
  - destruct (match_here r (c :: s)) as [n|] eqn:Hm.
    + exists O. rewrite Nat.add_0_r. change (skipn 0 (c :: s)) with (c :: s).
      repeat split; auto; lia.
    + specialize (IH (S pos)).
      destruct (search_from r s (S pos)) as [[first n]|].
      * destruct IH as (i & -> & Hi & Hmi & Hleast).
        exists (S i). change (skipn (S i) (c :: s)) with (skipn i s).
        cbn [length]. repeat split; auto; try lia.
        intros [|j] Hj; [exact Hm | apply Hleast; lia].
      * intros [|j]; [exact Hm | apply IH].
Qed.

Lemma title_id_class_chars (c : ascii) :
  title_id_class c = is_hex c || Ascii.eqb c "X".
Proof.
  unfold title_id_class, is_hex, hex_val.
  destruct (between 48 57 c), (between 65 70 c), (between 97 102 c);
    reflexivity.
Qed.

Lemma match_here_occurs (p : ascii -> bool) (s : list ascii) (i n : nat) :
  match_here [lit "0"; lit "1"; Atom p 12 None] (skipn i s) = Some n ->
  occurs_at p s i.
Proof.
  intros H. apply match_here_some in H as (d & after & Hs & Hlen & Hd & _ & _).
  exists d, after. auto.
Qed.

Lemma group_at (before m after : list ascii) :
  group (before ++ m ++ after) (length before, length m) = m.
Proof.
  unfold group. cbn [fst snd].
  rewrite drop_app_length, take_app_length. reflexivity.
Qed.

Lemma find_title_id_matches (nfo : list ascii) :
  (forall c, title_id_class c = is_hex c || Ascii.eqb c "X") /\
  (forall t,
     find_title_id nfo = Some t <->
     exists before digits after,
       nfo = before ++ chars "01" ++ digits ++ after /\
       (12 <= length digits)%nat /\
       forallb title_id_class digits = true /\
       ends_run title_id_class after /\
       (forall i, (i < length before)%nat -> ~ occurs_at title_id_class nfo i) /\
       t = replace_char "X" "0" (chars "01" ++ digits)) /\
  (find_title_id nfo = None <-> forall i, ~ occurs_at title_id_class nfo i).
Proof.
  split; [exact title_id_class_chars|].
  unfold find_title_id, search.
  pose proof (search_from_least TITLE_ID_REGEX nfo O) as Hs.
  destruct (search_from TITLE_ID_REGEX nfo 0) as [[first n]|].
  - destruct Hs as (i & -> & Hi & Hm & Hleast). change (0 + i)%nat with i.
    pose proof Hm as Hocc. apply match_here_occurs in Hocc.
    apply match_here_some in Hm as (d & after & Hd & Hlen & Hcls & Hend & ->).
    assert (Hnfo : nfo = firstn i nfo ++ chars "01" ++ d ++ after).
    { rewrite <- Hd. symmetry. apply take_drop. }
    assert (Hbefore : length (firstn i nfo) = i).
    { rewrite length_take. lia. }
    assert (Hgroup : group nfo (i, (2 + length d)%nat) = chars "01" ++ d).
    { rewrite Hnfo at 1. rewrite <- Hbefore at 2.
      change (2 + length d)%nat with (length (chars "01" ++ d)).
      rewrite (app_assoc (chars "01") d after). apply group_at. }
    split; [intros t; split|split].
    + intros [= <-]. exists (firstn i nfo), d, after.
      rewrite Hbefore. repeat split; auto; [|f_equal; exact Hgroup].
      intros j Hj Hoccj. apply occurs_at_shift in Hoccj.
      apply (match_here_none title_id_class) in Hoccj; [exact Hoccj|].
      apply Hleast. exact Hj.
    + intros (before & d' & after' & Hnfo' & Hlen' & Hcls' & Hend' & Hfirst & ->).
      assert (Hm' : match_here TITLE_ID_REGEX (skipn (length before) nfo)
                    = Some (2 + length d')%nat).
      { rewrite Hnfo', drop_app_length. apply match_here_some.
        exists d', after'. auto. }
      destruct (Nat.lt_trichotomy i (length before)) as [Hlt|[Heq|Hgt]].
      * exfalso. exact (Hfirst i Hlt Hocc).
      * subst i. rewrite Hnfo' in Hd at 1. rewrite drop_app_length in Hd.
        cbn [chars list_ascii_of_string app] in Hd.
        injection Hd as Hd.
        assert (Hdd : d' = d).
        { assert (Hr : run_length title_id_class None (d' ++ after')
                       = run_length title_id_class None (d ++ after))
            by (rewrite Hd; reflexivity).
          rewrite !run_length_app, !run_length_ends in Hr by assumption.
          rewrite !Nat.add_0_r in Hr.
          apply (f_equal (firstn (length d'))) in Hd.
          rewrite take_app_length in Hd. rewrite Hr in Hd.
          rewrite take_app_length in Hd. exact Hd. }
        subst d'. do 2 f_equal. exact Hgroup.
      * rewrite (Hleast _ Hgt) in Hm'. discriminate.
    + discriminate.
    + intros Hno. exfalso. exact (Hno i Hocc).
  - split; [intros t; split|split].
    + discriminate.
    + intros (before & d' & after' & Hnfo' & Hlen' & Hcls' & Hend' & _ & _).
      exfalso. specialize (Hs (length before)).
      apply (match_here_none title_id_class) in Hs. apply Hs.
      apply occurs_at_shift.
      exists d', after'. rewrite Hnfo' at 1.
      change (skipn 0 ?l) with l. rewrite drop_app_length. auto.
    + intros _ i Hocc. apply occurs_at_shift in Hocc.
      apply (match_here_none title_id_class) in Hocc; [exact Hocc|]. apply Hs.
    + reflexivity.
Qed.

Lemma replace_placeholder_hex (l : list ascii) :
  forallb title_id_class l = true ->
  forallb is_hex (replace_char "X" "0" l) = true.
Proof.
  induction l as [|c l IH]; intros H; [reflexivity|].
  cbn [forallb replace_char map] in *. apply andb_true_iff in H as [Hc Hl].
  fold (replace_char "X" "0" l). rewrite (IH Hl), andb_true_r.
  destruct (Ascii.eqb_spec c "X") as [->|Hx]; [reflexivity|].
  rewrite title_id_class_chars in Hc.
  apply orb_true_iff in Hc as [Hc|Hc]; [exact Hc|].
  apply Ascii.eqb_eq in Hc. contradiction.
Qed.

Lemma find_title_id_hex (nfo t : list ascii) :
  find_title_id nfo = Some t -> t <> [] /\ forallb is_hex t = true.
Proof.
  intros H.
  apply (proj1 (proj2 (find_title_id_matches nfo))) in H
    as (before & d & after & _ & _ & Hd & _ & _ & ->).
  split; [discriminate|].
  apply replace_placeholder_hex. rewrite forallb_app, Hd. reflexivity.
Qed.

(** C7, as amended: [find_title_id] returns the leftmost, longest substring
    made of the characters 0 and 1 followed by at least twelve characters
    that are hexadecimal digits of either case or the uppercase letter X,
    with every X replaced by 0; and it returns nothing exactly when the
    text has no such substring. *)
Theorem find_title_id_first_match (nfo : list ascii) :
  (forall c, title_id_class c = is_hex c || Ascii.eqb c "X") /\
  (forall t,
     find_title_id nfo = Some t <->
     exists before digits after,
       nfo = before ++ chars "01" ++ digits ++ after /\
       (12 <= length digits)%nat /\
       forallb title_id_class digits = true /\
       ends_run title_id_class after /\
       (forall i, (i < length before)%nat -> ~ occurs_at title_id_class nfo i) /\
       t = replace_char "X" "0" (chars "01" ++ digits)) /\
  (find_title_id nfo = None <-> forall i, ~ occurs_at title_id_class nfo i).
Proof. exact (find_title_id_matches nfo). Qed.

(** C7, as the specification states it, fails on a lowercase
    placeholder. *)
Lemma find_title_id_lowercase_placeholder :
  find_title_id (chars "0100abcdefxx1234") <>
  spec_find_title_id (chars "0100abcdefxx1234").
Proof. vm_compute. discriminate. Qed.

(** C1, as the specification states it, fails: the mask clears the low
    thirteen bits only, not the low seven digits. *)
Lemma mask_title_id_example_refuted :
  mask_title_id "0100ABCDEF123456" <> Some "0100ABCDE0000000"%string.
Proof. vm_compute. discriminate. Qed.

(** C1, as amended: the raw identifier 0100ABCDEF123456 masks to
    0100ABCDEF122000. *)
Theorem mask_title_id_example :
  mask_title_id "0100ABCDEF123456" = Some "0100ABCDEF122000"%string.
Proof. vm_compute. reflexivity. Qed.

(** C9: on every non-empty string of hexadecimal digits, and so on every
    raw identifier that the extraction produces, masking returns a string,
    and masking that string returns it unchanged. *)
Theorem mask_title_id_idempotent (x : string) :
  x <> ""%string -> forallb is_hex (chars x) = true ->
  exists m, mask_title_id x = Some m /\ mask_title_id m = Some m.
Proof.
  intros Hne Hx.
  assert (Hc : chars x <> []) by (destruct x; [congruence | discriminate]).
  destruct (int16_total _ Hc Hx) as [v Hv].
  pose proof (mask_chars_value _ _ Hv) as Hm.
  exists (str (masked_digits (Z.land v TITLE_ID_BASE_MASK))).
  unfold mask_title_id. rewrite Hm. split; [reflexivity|].
  unfold chars, str. rewrite list_ascii_of_string_of_list_ascii.
  rewrite (mask_chars_idempotent _ _ Hm). reflexivity.
Qed.

Lemma mask_title_id_idempotent_witness :
  exists m, mask_title_id "0100ABCDEF123456" = Some m /\ mask_title_id m = Some m.
Proof.
  apply mask_title_id_idempotent; [discriminate | reflexivity].
Defined.

(** ** The uploader of a release *)

Lemma rfind_from_absent (c : ascii) (s : list ascii) : forall i last,
  ~ In c s -> rfind_from c s i last = last.
Proof.
  induction s as [|x s IH]; intros i last Hc; [reflexivity|].
  cbn [rfind_from].
  destruct (Ascii.eqb_spec x c) as [->|Hx]; [exfalso; apply Hc; left; reflexivity|].
  apply IH. intros Hin. apply Hc. right. exact Hin.
Qed.

Lemma uploader_no_hyphen (title : string) :
  ~ In "-"%char (chars title) -> uploader title = title.
Proof.
  intros H. unfold uploader, rfind. rewrite rfind_from_absent by exact H.
  unfold py_slice_from. cbn. apply string_of_list_ascii_of_string.
Qed.

(** C10: when the release name has no hyphen, the uploader of the
    announcement is the whole release name. *)
Theorem make_twitter_post_no_hyphen (i : release_info) :
  ~ In "-"%char (chars (info_title i)) ->
  uploader (info_title i) = info_title i /\
  text (make_twitter_post i) = post_text (info_title i) i.
Proof.
  intros H. pose proof (uploader_no_hyphen _ H) as Hu.
  split; [exact Hu|]. cbn [make_twitter_post text]. rewrite Hu. reflexivity.
Qed.

(** ** Human-readable sizes *)

(** The conversion to [float] does not change the outcome of the first
    comparison of the loop. *)
Lemma float_of_int_ge_1024 (n : Z) (q : Q) :
  float_of_int n = Some q -> (1024 <= n <-> (inject_Z 1024 <= q)%Q).
Proof.
  unfold float_of_int.
  set (a := Z.abs n). set (e := Z.log2 a - 52).
  destruct (Z.leb_spec e 0) as [He|He].
  - intros [= <-]. rewrite <- Zle_Qle. reflexivity.
  - set (m := Z.shiftr a e).
    set (m' := if _ : bool then m + 1 else m).
    destruct (Z.shiftl 1 1024 <=? Z.shiftl m' e); [discriminate|].
    intros [= <-].
    assert (Hlog : 53 <= Z.log2 a) by lia.
    assert (Ha : 0 < a).
    { destruct (Z.eq_dec a 0) as [Hz|Hz]; [rewrite Hz in Hlog; cbn in Hlog; lia|].
      unfold a in *. lia. }
    pose proof (proj1 (Z.log2_spec a Ha)) as Hlo.
    assert (Hpow : 2 ^ Z.log2 a = 2 ^ e * 2 ^ 52).
    { rewrite <- Z.pow_add_r by lia. f_equal. lia. }
    assert (He2 : 2 <= 2 ^ e).
    { change 2 with (2 ^ 1) at 1. apply Z.pow_le_mono_r; lia. }
    assert (Hm : 2 ^ 52 <= m).
    { unfold m. rewrite Z.shiftr_div_pow2 by lia.
      apply Z.div_le_lower_bound; lia. }
    assert (Hm' : m <= m') by (unfold m'; destruct (_ || _); lia).
    assert (Hv : 1024 <= Z.shiftl m' e).
    { rewrite Z.shiftl_mul_pow2 by lia. nia. }
    assert (H53 : 2 ^ 53 <= a).
    { change (2 ^ 53) with (2 ^ 1 * 2 ^ 52). change (2 ^ 1) with 2. nia. }
    rewrite <- Zle_Qle.
    destruct (Z.sgn_spec n) as [[Hn Hs]|[[Hn Hs]|[Hn Hs]]]; rewrite Hs; unfold a in *; lia.
Qed.

Lemma scaled_succ (k : nat) (q : Q) :
  scaled (S k) q = scaled k (q / inject_Z 1024)%Q.
Proof. unfold scaled. exact (Nat.iter_succ_r k _ q). Qed.

Lemma humansize_loop_step (rem : nat) (size : number) (index : nat) :
  humansize_loop (S rem) size index =
  if ge_1024 size then
    match div_1024 size with
    | Some size' => humansize_loop rem size' (S index)
    | None => None
    end
  else Some (size, index).
Proof. reflexivity. Qed.

(** The loop, once the size is a [float]. *)
Lemma humansize_loop_float (rem : nat) : forall (x : Q) (index : nat),
  exists k, (k <= rem)%nat /\
    (forall j, (j < k)%nat -> (inject_Z 1024 <= scaled j x)%Q) /\
    (k = rem \/ (scaled k x < inject_Z 1024)%Q) /\
    humansize_loop rem (PyFloat x) index = Some (PyFloat (scaled k x), (index + k)%nat).
Proof.
  induction rem as [|rem IH]; intros x index.
  - exists O. rewrite Nat.add_0_r. repeat split; auto; lia.
  - cbn [humansize_loop ge_1024 div_1024 to_float].
    destruct (Qle_bool (inject_Z 1024) x) eqn:Hge.
    + destruct (IH (x / inject_Z 1024)%Q (S index)) as (k & Hk & Hall & Hlast & Hrun).
      exists (S k). rewrite scaled_succ, Hrun, Nat.add_succ_r.
      repeat split; auto; try lia.
      * intros [|j] Hj; [apply Qle_bool_iff; exact Hge|].
        rewrite scaled_succ. apply Hall. lia.
      * destruct Hlast as [->|Hlt]; [left; reflexivity | right; exact Hlt].
    + exists O. rewrite Nat.add_0_r. repeat split; auto; try lia.
      right. change (scaled 0 x) with x. apply Qnot_le_lt. intros Hle.
      apply Qle_bool_iff in Hle. congruence.
Qed.

Lemma humansize_chars_scaling (n : Z) (q : Q) :
  float_of_int n = Some q ->
  exists k, (k <= 5)%nat /\
    (forall j, (j < k)%nat -> (inject_Z 1024 <= scaled j q)%Q) /\
    (k = 5%nat \/ (scaled k q < inject_Z 1024)%Q) /\
    humansize_chars n =
      Some (rstrip "." (rstrip "0" (format_2f (scaled k q))) ++ chars " "
              ++ chars (nth k suffixes ""%string)).
Proof.
  intros Hq. pose proof (float_of_int_ge_1024 n q Hq) as Hcmp.
  unfold humansize_chars.
  change (length suffixes - 1)%nat with 5%nat.
  rewrite humansize_loop_step. unfold ge_1024, div_1024 at 1, to_float at 1.
  rewrite Hq.
  destruct (Z.leb_spec 1024 n) as [Hge|Hlt].
  - destruct (humansize_loop_float 4 (q / inject_Z 1024)%Q 1)
      as (k & Hk & Hall & Hlast & Hrun).
    exists (S k). rewrite Hrun. cbn [to_float Nat.add]. rewrite scaled_succ.
    repeat split; auto; try lia.
    + intros [|j] Hj; [apply Hcmp; exact Hge|].
      rewrite scaled_succ. apply Hall. lia.
    + destruct Hlast as [->|Hl]; [left; reflexivity | right; exact Hl].
  - exists O. cbn [to_float]. rewrite Hq. repeat split; auto; try lia.
    right. change (scaled 0 q) with q. apply Qnot_le_lt. intros Hle.
    apply Hcmp in Hle. lia.
Qed.

(** C8: [humansize] divides the size by 1024 as long as it is at least
    1024 and a larger suffix is left, prints the quotient with two
    decimals, strips the trailing zeros and then a trailing point, and
    appends the suffix of the number of divisions; 0, 1024, 1536 and
    1073741824 give "0 B", "1 KiB", "1.5 KiB" and "1 GiB". *)
Theorem humansize_scaling :
  (forall n q, float_of_int n = Some q ->
     exists k, (k <= 5)%nat /\
       (forall j, (j < k)%nat -> (inject_Z 1024 <= scaled j q)%Q) /\
       (k = 5%nat \/ (scaled k q < inject_Z 1024)%Q) /\
       humansize n =
         Some (str (rstrip "." (rstrip "0" (format_2f (scaled k q))) ++ chars " "
                      ++ chars (nth k suffixes ""%string)))) /\
  suffixes = ["B"; "KiB"; "MiB"; "GiB"; "TiB"; "PiB"]%string /\
  humansize 0 = Some "0 B"%string /\
  humansize 1024 = Some "1 KiB"%string /\
  humansize 1536 = Some "1.5 KiB"%string /\
  humansize 1073741824 = Some "1 GiB"%string.
Proof.
  split; [|repeat split; vm_compute; reflexivity].
  intros n q Hq.
  destruct (humansize_chars_scaling n q Hq) as (k & Hk & Hall & Hlast & Hrun).
  exists k. unfold humansize. rewrite Hrun. auto.
Qed.

Lemma humansize_scaling_witness :
  exists k, (k <= 5)%nat /\
    (forall j, (j < k)%nat -> (inject_Z 1024 <= scaled j (inject_Z 1536))%Q) /\
    (k = 5%nat \/ (scaled k (inject_Z 1536) < inject_Z 1024)%Q) /\
    humansize 1536 =
      Some (str (rstrip "." (rstrip "0" (format_2f (scaled k (inject_Z 1536))))
                   ++ chars " " ++ chars (nth k suffixes ""%string))).
Proof.
  destruct humansize_scaling as [H _]. apply (H 1536 (inject_Z 1536)).
  reflexivity.
Defined.

(** ** The deduplicator *)

Section Deduplicator.

Variable md5_hexdigest : string -> string.
Variable cfg : config.

Lemma new_releases_fresh (initial : bool) (releases : list candidate) :
  forall seen,
    fresh_run md5_hexdigest seen (new_releases md5_hexdigest initial releases seen).
Proof.
  unfold fresh_run.
  induction releases as [|r rest IH]; intros seen.
  - cbn [new_releases fst snd]. split; [done|]. split; [constructor|intros c []].
  - cbn [new_releases]. destruct initial.
    + destruct (IH ({[release_hash md5_hexdigest r]} ∪ seen)) as (Hsub & Hnd & Hin).
      split; [set_solver|]. split; [exact Hnd|].
      intros c Hc. destruct (Hin c Hc) as [? ?]. set_solver.
    + destruct (decide (release_hash md5_hexdigest r ∈ seen)) as [Hseen|Hnew];
        [apply IH|].
      specialize (IH ({[release_hash md5_hexdigest r]} ∪ seen)).
      destruct (new_releases md5_hexdigest false rest
                  ({[release_hash md5_hexdigest r]} ∪ seen)) as [news seen'].
      destruct IH as (Hsub & Hnd & Hin). cbn [fst snd] in *.
      split; [set_solver|]. split.
      * cbn [map]. constructor; [|exact Hnd].
        intros Hdup. apply list_elem_of_In, in_map_iff in Hdup as (c & Hc & Hcin).
        destruct (Hin c Hcin) as [Hfresh _]. set_solver.
      * intros c [<-|Hc]; [split; [exact Hnew | set_solver]|].
        destruct (Hin c Hc) as [? ?]. split; [set_solver | assumption].
Qed.

Lemma new_over_scans_fresh (scans : list (list candidate)) :
  forall seen,
    fresh_run md5_hexdigest seen (new_over_scans md5_hexdigest cfg scans seen).
Proof.
  unfold fresh_run.
  induction scans as [|releases later IH]; intros seen.
  - cbn [new_over_scans fst snd]. split; [done|]. split; [constructor|intros c []].
  - cbn [new_over_scans]. unfold find_new_releases.
    pose proof (new_releases_fresh (is_initial cfg seen) releases seen) as H1.
    unfold fresh_run in H1.
    destruct (new_releases md5_hexdigest (is_initial cfg seen) releases seen)
      as [news seen'].
    specialize (IH seen').
    destruct (new_over_scans md5_hexdigest cfg later seen') as [more seen''].
    destruct H1 as (Hsub1 & Hnd1 & Hin1), IH as (Hsub2 & Hnd2 & Hin2).
    cbn [fst snd] in *. split; [set_solver|]. split.
    + rewrite map_app. apply NoDup_app. split; [exact Hnd1|]. split; [|exact Hnd2].
      intros h Hh1 Hh2.
      apply list_elem_of_In, in_map_iff in Hh1 as (c1 & <- & Hc1).
      apply list_elem_of_In, in_map_iff in Hh2 as (c2 & Heq & Hc2).
      destruct (Hin1 c1 Hc1) as [_ Hseen]. destruct (Hin2 c2 Hc2) as [Hnew _].
      rewrite Heq in Hnew. contradiction.
    + intros c Hc. apply in_app_or in Hc as [Hc|Hc].
      * destruct (Hin1 c Hc) as [? ?]. split; [assumption | set_solver].
      * destruct (Hin2 c Hc) as [? ?]. split; [set_solver | assumption].
Qed.

Lemma NoDup_names (news : list candidate) :
  NoDup (map (release_hash md5_hexdigest) news) -> NoDup (map release news).
Proof.
  unfold release_hash. rewrite <- (map_map release md5_hexdigest).
  apply (NoDup_fmap_1 md5_hexdigest).
Qed.

(** C2: over the scans of a process, whatever set it starts from, no two
    of the releases classified as new have the same name; the set of seen
    keys only grows; and a release whose key is in the set is not
    classified as new afterwards. *)
Theorem at_most_once_new (scans : list (list candidate)) (seen : gset string) :
  NoDup (map release (fst (new_over_scans md5_hexdigest cfg scans seen))) /\
  (seen ⊆ snd (new_over_scans md5_hexdigest cfg scans seen)) /\
  forall c, release_hash md5_hexdigest c ∈ seen ->
            ~ In c (fst (new_over_scans md5_hexdigest cfg scans seen)).
Proof.
  destruct (new_over_scans_fresh scans seen) as (Hsub & Hnd & Hin).
  split; [apply NoDup_names; exact Hnd|]. split; [exact Hsub|].
  intros c Hseen Hc. destruct (Hin c Hc) as [Hnew _]. contradiction.
Qed.

End Deduplicator.

(** ** Requests and their defaults *)

Lemma request_url_failed {A} (url caller method : string) (send : nat -> reply A)
    (w : world) :
  failed (send (length (requests w))) = true ->
  request_url url caller method send w
  = (Ok None, add_request (Request caller method url) w).
Proof.
  unfold request_url, failed.
  destruct (send (length (requests w))) as [|status_code payload]; [reflexivity|].
  destruct ((200 <=? status_code) && (status_code <? 299)); [discriminate|reflexivity].
Qed.

Lemma bind_ok {A B} (m : M A) (f : A -> M B) (w w' : world) (a : A) :
  m w = (Ok a, w') -> (m ≫= f) w = f a w'.
Proof. intros H. unfold mbind, M_bind. rewrite H. reflexivity. Qed.

Lemma bind_raise {A B} (m : M A) (f : A -> M B) (w w' : world) (e : exn) :
  m w = (Raise e, w') -> (m ≫= f) w = (Raise e, w').
Proof. intros H. unfold mbind, M_bind. rewrite H. reflexivity. Qed.

(** ** The cache of details *)

Lemma get_details_cached (net : network) (name : string) (w : world)
    (cached : option details) :
  CACHE_releases w !! name = Some cached ->
  get_details net name w = (Ok cached, w).
Proof.
  intros H. unfold get_details.
  rewrite (bind_ok _ _ w w (CACHE_releases w)) by reflexivity.
  rewrite H. reflexivity.
Qed.

Lemma get_details_failed (net : network) (name : string) (w : world) :
  CACHE_releases w !! name = None ->
  failed (srrdb_details net (length (requests w)) name) = true ->
  get_details net name w
  = (Ok None,
     cache_release name None
       (add_request (Request "DET" "get" (SRRDB_RELEASE_URL name)) w)).
Proof.
  intros Hc Hf. unfold get_details.
  rewrite (bind_ok _ _ w w (CACHE_releases w)) by reflexivity.
  rewrite Hc.
  erewrite bind_ok by (apply request_url_failed; exact Hf).
  reflexivity.
Qed.

(** C3, as amended: [get_details] caches the outcome of every fetch, the
    absent one included; after a failed fetch the cache maps the name to
    the absent value, and a lookup of the name in any later state that
    still has this entry returns the absent value and sends no request,
    whatever the server would answer. *)
Theorem get_details_caches_failure (net : network) (name : string) (w : world) :
  CACHE_releases w !! name = None ->
  failed (srrdb_details net (length (requests w)) name) = true ->
  exists w1,
    get_details net name w = (Ok None, w1) /\
    CACHE_releases w1 !! name = Some None /\
    requests w1 = Request "DET" "get" (SRRDB_RELEASE_URL name) :: requests w /\
    forall net' w2, CACHE_releases w2 !! name = Some None ->
                    get_details net' name w2 = (Ok None, w2).
Proof.
  intros Hc Hf. eexists. split; [apply get_details_failed; assumption|].
  split; [apply lookup_insert_eq|]. split; [reflexivity|].
  intros net' w2 H2. apply get_details_cached. exact H2.
Qed.

(** The claim of C3 fails after a failed fetch: an entry is stored, and
    the next lookup sends no request although the server would answer. *)
Lemma failed_details_are_cached :
  let net := servers down_then_up (Response 200 game_nfo) uploaded
               (Response 200 "1"%string) in
  let w1 := snd (get_details net "Game-GRP" start) in
  ~ (CACHE_releases w1 !! "Game-GRP"%string = None \/
     requests (snd (get_details net "Game-GRP" w1)) <> requests w1).
Proof. vm_compute. intros [H|H]; [discriminate | apply H; reflexivity]. Qed.

Lemma get_details_caches_failure_witness :
  exists w1,
    get_details (servers down_then_up (Response 200 game_nfo) uploaded
                   (Response 200 "1"%string)) "Game-GRP" start = (Ok None, w1) /\
    CACHE_releases w1 !! "Game-GRP"%string = Some None /\
    requests w1
      = Request "DET" "get" (SRRDB_RELEASE_URL "Game-GRP") :: requests start /\
    forall net' w2, CACHE_releases w2 !! "Game-GRP"%string = Some None ->
                    get_details net' "Game-GRP" w2 = (Ok None, w2).
Proof.
  apply get_details_caches_failure; reflexivity.
Defined.

(** ** Failures of the fetches *)

Section Loop.

Variable md5_hexdigest : string -> string.
Variable cfg : config.
Variable net : network.
Variable backends : renderers.

(** C4: when the fetch of the scan fails, [scan_srrdb] subscripts the
    absent default and raises, and the exception ends [main_loop]: the
    cycle is not a no-op. *)
Theorem scan_failure_raises (n : nat) (w : world) :
  failed (srrdb_scan net (length (requests w))) = true ->
  main_loop md5_hexdigest cfg net backends (S n) w
  = (Raise TypeError, add_request (Request "SCN" "get" SRRDB_SCAN_URL) w).
Proof.
  intros Hf. cbn [main_loop]. apply bind_raise.
  unfold scan_srrdb.
  erewrite bind_ok by (apply request_url_failed; exact Hf). reflexivity.
Qed.

(** An empty scan, on the contrary, is skipped. *)
Lemma empty_scan_is_skipped (w : world) :
  srrdb_scan net (length (requests w)) = Response 200 [] ->
  main_loop md5_hexdigest cfg net backends 1 w
  = (Ok tt,
     let w' := add_request (Request "SCN" "get" SRRDB_SCAN_URL) w in
     if debug cfg then w' else one_more_sleep w').
Proof.
  intros Hs. cbn [main_loop].
  assert (Hscan : scan_srrdb net w
                  = (Ok [], add_request (Request "SCN" "get" SRRDB_SCAN_URL) w)).
  { unfold scan_srrdb, request_url, mbind, M_bind. rewrite Hs. reflexivity. }
  rewrite (bind_ok _ _ _ _ _ Hscan).
  unfold handle_releases, mbind, M_bind, get. cbn.
  destruct (debug cfg); reflexivity.
Qed.

Lemma parse_nfo_failed_fetch (nfo_url : string) (w : world) :
  failed (download net (length (requests w)) nfo_url) = true ->
  parse_nfo net nfo_url w
  = (Raise AttributeError, add_request (Request "NFO" "get" nfo_url) w).
Proof.
  intros Hf. unfold parse_nfo.
  erewrite bind_ok by (apply request_url_failed; exact Hf). reflexivity.
Qed.

Lemma parse_nfo_empty (nfo_url : string) (w : world) :
  download net (length (requests w)) nfo_url = Response 200 ""%string ->
  parse_nfo net nfo_url w = (Ok None, add_request (Request "NFO" "get" nfo_url) w).
Proof.
  intros Hd. unfold parse_nfo, request_url, mbind, M_bind. rewrite Hd. reflexivity.
Qed.

(** The generator yields a release whose key is not in the set, once the
    key is added, and goes on as the body of the loop says. *)
Lemma for_new_releases_fresh (body : candidate -> M control) (r : candidate)
    (rest : list candidate) (w : world) :
  release_hash md5_hexdigest r ∉ OLD_HASH_SET w ->
  for_new_releases md5_hexdigest body false (r :: rest) w
  = (body r ≫= fun c =>
       match c with
       | Next => for_new_releases md5_hexdigest body false rest
       | Return => mret tt
       end) (add_seen (release_hash md5_hexdigest r) w).
Proof.
  intros Hnew. cbn [for_new_releases].
  rewrite (bind_ok _ _ w w (OLD_HASH_SET w)) by reflexivity.
  destruct (decide (release_hash md5_hexdigest r ∈ OLD_HASH_SET w)); [contradiction|].
  reflexivity.
Qed.

Lemma handle_releases_later (releases : list candidate) (w : world) :
  debug cfg = false -> OLD_HASH_SET w <> ∅ ->
  handle_releases md5_hexdigest cfg net backends releases w
  = for_new_releases md5_hexdigest (handle_release cfg net backends) false releases w.
Proof.
  intros Hd Hs. unfold handle_releases.
  rewrite (bind_ok _ _ w w (OLD_HASH_SET w)) by reflexivity.
  unfold is_initial, DEBUG. rewrite bool_decide_eq_false_2 by exact Hs. reflexivity.
Qed.

Lemma raise_ends {A B} (m : M A) (f : A -> M B) (w : world) (e : exn) :
  fst (m w) = Raise e ->
  fst ((m ≫= f) w) = Raise e /\ snd ((m ≫= f) w) = snd (m w).
Proof.
  unfold mbind, M_bind. destruct (m w) as [[a|e'] w']; [discriminate|].
  cbn. intros [= ->]. split; reflexivity.
Qed.

End Loop.

Lemma scan_failure_raises_witness :
  main_loop (fun s => s) production unreachable painters 1 start
  = (Raise TypeError, add_request (Request "SCN" "get" SRRDB_SCAN_URL) start).
Proof.
  apply scan_failure_raises. reflexivity.
Defined.

(** ** The loop and the deduplicator

    Nothing but the generator touches the set of seen keys, and outside of
    the single-pass mode the body of the loop never leaves it; so a call of
    [handle_releases] that ends leaves the set that the generator, run to
    its end, leaves. *)

Lemma keeps_ret {A} (a : A) : keeps_seen (mret a).
Proof. intros w. reflexivity. Qed.

Lemma keeps_raise {A} (e : exn) : keeps_seen (@raise A e).
Proof. intros w. reflexivity. Qed.

Lemma keeps_lift {A} (o : outcome A) : keeps_seen (lift o).
Proof. intros w. reflexivity. Qed.

Lemma keeps_get {A} (f : world -> A) : keeps_seen (get f).
Proof. intros w. reflexivity. Qed.

Lemma keeps_modify (f : world -> world) :
  (forall w, OLD_HASH_SET (f w) = OLD_HASH_SET w) -> keeps_seen (modify f).
Proof. intros Hf w. apply Hf. Qed.

Lemma keeps_bind {A B} (m : M A) (f : A -> M B) :
  keeps_seen m -> (forall a, keeps_seen (f a)) -> keeps_seen (m ≫= f).
Proof.
  intros Hm Hf w. unfold mbind, M_bind. specialize (Hm w).
  destruct (m w) as [[a|e] w1]; cbn [snd] in *; [|exact Hm].
  rewrite Hf. exact Hm.
Qed.

Lemma keeps_request_url {A} (url caller method : string) (send : nat -> reply A) :
  keeps_seen (request_url url caller method send).
Proof.
  intros w. unfold request_url.
  destruct (send (length (requests w))) as [|status_code payload]; [reflexivity|].
  destruct ((200 <=? status_code) && (status_code <? 299)); reflexivity.
Qed.

Ltac keeps_step :=
  first
    [ apply keeps_ret | apply keeps_raise | apply keeps_lift | apply keeps_get
    | apply keeps_request_url
    | apply keeps_modify; intros ?; reflexivity
    | apply keeps_bind; [|intros ?]
    | match goal with
      | |- keeps_seen (match ?x with _ => _ end) => destruct x
      end ].

Ltac keeps := repeat keeps_step.

Lemma goes_on_next : goes_on (mret Next).
Proof. intros w w' H. discriminate. Qed.

Lemma goes_on_raise (e : exn) : goes_on (raise e).
Proof. intros w w' H. discriminate. Qed.

Lemma goes_on_bind {A} (m : M A) (f : A -> M control) :
  (forall a, goes_on (f a)) -> goes_on (m ≫= f).
Proof.
  intros Hf w w'. unfold mbind, M_bind.
  destruct (m w) as [[a|e] w1]; [apply Hf | discriminate].
Qed.

Section Frame.

Variable md5_hexdigest : string -> string.
Variable cfg : config.
Variable net : network.
Variable backends : renderers.

Lemma keeps_get_details (release_name : string) :
  keeps_seen (get_details net release_name).
Proof. unfold get_details. keeps. Qed.

Lemma keeps_parse_nfo (nfo_url : string) : keeps_seen (parse_nfo net nfo_url).
Proof. unfold parse_nfo. keeps. Qed.

Lemma keeps_get_info (release_name : string) :
  keeps_seen (get_info net release_name).
Proof.
  unfold get_info.
  apply keeps_bind; [apply keeps_get_details|]. intros d. keeps.
Qed.

Lemma keeps_upload_media_loop (title_id : string)
    (images : list (string * option string)) :
  forall media, keeps_seen (upload_media_loop net title_id images media).
Proof.
  induction images as [|[image_type image] rest IH]; intros media;
    cbn [upload_media_loop]; keeps; apply IH.
Qed.

Lemma keeps_post_to_twitter (i : release_info) :
  keeps_seen (post_to_twitter net i).
Proof.
  unfold post_to_twitter, upload_media.
  apply keeps_bind; [|intros i'; keeps].
  apply keeps_bind; [apply keeps_upload_media_loop | intros media; keeps].
Qed.

Lemma keeps_handle_release (r : candidate) :
  keeps_seen (handle_release cfg net backends r).
Proof.
  unfold handle_release.
  destruct (negb (hasNFO r)); [apply keeps_ret|].
  apply keeps_bind; [apply keeps_get_info|]. intros info.
  destruct info as [release_info|]; [|apply keeps_ret].
  apply keeps_bind; [keeps|]. intros [mode backend].
  apply keeps_bind; [unfold render_with; keeps|]. intros buffer.
  apply keeps_bind; [unfold upload_nfo; keeps|]. intros [uploaded release_info'].
  destruct (falsy uploaded); [apply keeps_ret|].
  apply keeps_bind; [unfold add_to_mongo; keeps|]. intros _.
  apply keeps_bind; [apply keeps_post_to_twitter|]. intros [[post response] i'].
  unfold sleep. keeps.
Qed.

Lemma goes_on_handle_release (r : candidate) :
  debug cfg = false -> goes_on (handle_release cfg net backends r).
Proof.
  intros Hd. unfold handle_release.
  destruct (negb (hasNFO r)); [apply goes_on_next|].
  apply goes_on_bind. intros [release_info|]; [|apply goes_on_next].
  apply goes_on_bind. intros [mode backend].
  apply goes_on_bind. intros buffer.
  apply goes_on_bind. intros [uploaded release_info'].
  destruct (falsy uploaded); [apply goes_on_next|].
  apply goes_on_bind. intros _.
  apply goes_on_bind. intros [[post response] i'].
  destruct response as [id|]; [|apply goes_on_raise].
  rewrite Hd. apply goes_on_bind. intros _. apply goes_on_next.
Qed.

Lemma for_new_releases_seen (body : candidate -> M control) (initial : bool) :
  (forall r, keeps_seen (body r)) -> (forall r, goes_on (body r)) ->
  forall releases w w',
    for_new_releases md5_hexdigest body initial releases w = (Ok tt, w') ->
    OLD_HASH_SET w'
    = snd (new_releases md5_hexdigest initial releases (OLD_HASH_SET w)).
Proof.
  intros Hkeeps Hgoes.
  induction releases as [|r rest IH]; intros w w' Hrun.
  - injection Hrun as <-. reflexivity.
  - cbn [for_new_releases new_releases] in *.
    rewrite (bind_ok _ _ w w (OLD_HASH_SET w)) in Hrun by reflexivity.
    destruct initial.
    + apply IH in Hrun. exact Hrun.
    + destruct (decide (release_hash md5_hexdigest r ∈ OLD_HASH_SET w));
        [apply IH; exact Hrun|].
      unfold mbind, M_bind, modify in Hrun.
      pose proof (Hkeeps r (add_seen (release_hash md5_hexdigest r) w)) as Hk.
      pose proof (Hgoes r (add_seen (release_hash md5_hexdigest r) w)) as Hg.
      destruct (body r (add_seen (release_hash md5_hexdigest r) w))
        as [[[|]|e] w1]; cbn [snd] in Hk.
      * apply IH in Hrun. rewrite Hrun, Hk. cbn [add_seen OLD_HASH_SET].
        destruct (new_releases md5_hexdigest false rest
                    ({[release_hash md5_hexdigest r]} ∪ OLD_HASH_SET w)).
        reflexivity.
      * exfalso. apply (Hg w1). reflexivity.
      * discriminate.
Qed.

(** Outside of the single-pass mode, a call of [handle_releases] that ends
    leaves the set of [find_new_releases]. *)
Lemma handle_releases_seen (releases : list candidate) (w w' : world) :
  debug cfg = false ->
  handle_releases md5_hexdigest cfg net backends releases w = (Ok tt, w') ->
  OLD_HASH_SET w'
  = snd (find_new_releases md5_hexdigest cfg releases (OLD_HASH_SET w)).
Proof.
  intros Hd Hrun. unfold handle_releases in Hrun.
  rewrite (bind_ok _ _ w w (OLD_HASH_SET w)) in Hrun by reflexivity.
  apply for_new_releases_seen in Hrun; [exact Hrun | |].
  - apply keeps_handle_release.
  - intros r. apply goes_on_handle_release. exact Hd.
Qed.

End Frame.

(** ** A release that fails on its way *)

Section Release.

Variable md5_hexdigest : string -> string.
Variable seen : gset string.
Variable rest : list candidate.
Hypothesis later : seen <> ∅.
Hypothesis is_new : md5_hexdigest "Game-GRP" ∉ seen.

(** The first release handled in a later cycle is [game]. *)
Lemma handle_game (net : network) :
  handle_releases md5_hexdigest production net painters (game :: rest)
    (after_scans seen)
  = (handle_release production net painters game ≫= fun c =>
       match c with
       | Next => for_new_releases md5_hexdigest
                   (handle_release production net painters) false rest
       | Return => mret tt
       end) (after_scans ({[md5_hexdigest "Game-GRP"]} ∪ seen)).
Proof.
  rewrite handle_releases_later by (reflexivity || exact later).
  rewrite for_new_releases_fresh by exact is_new. reflexivity.
Qed.

Lemma game_raises (net : network) (e : exn) :
  (forall s, fst (handle_release production net painters game (after_scans s))
             = Raise e) ->
  fst (handle_releases md5_hexdigest production net painters (game :: rest)
         (after_scans seen)) = Raise e /\
  snd (handle_releases md5_hexdigest production net painters (game :: rest)
         (after_scans seen))
  = snd (handle_release production net painters game
           (after_scans ({[md5_hexdigest "Game-GRP"]} ∪ seen))).
Proof.
  intros Hbody. rewrite handle_game. apply raise_ends. apply Hbody.
Qed.

End Release.

Lemma nfo_down_raises (s : gset string) :
  fst (handle_release production
         (servers up (Response 404 ""%string) uploaded (Response 200 "1"%string))
         painters game (after_scans s)) = Raise AttributeError.
Proof. vm_compute. reflexivity. Qed.

Lemma nfo_down_keeps_seen (s : gset string) :
  OLD_HASH_SET
    (snd (handle_release production
            (servers up (Response 404 ""%string) uploaded (Response 200 "1"%string))
            painters game (after_scans s))) = s.
Proof. vm_compute. reflexivity. Qed.

(** C5: an NFO whose fetch fails is not skipped.  The key of the release
    is recorded, but [parse_nfo] reads the content of the absent default
    and raises, and the exception ends the loop over the releases, those
    of [rest] included. *)
Theorem nfo_fetch_failure_raises (md5_hexdigest : string -> string)
    (seen : gset string) (rest : list candidate) :
  seen <> ∅ -> md5_hexdigest "Game-GRP" ∉ seen ->
  let out :=
    handle_releases md5_hexdigest production
      (servers up (Response 404 ""%string) uploaded (Response 200 "1"%string))
      painters (game :: rest) (after_scans seen) in
  fst out = Raise AttributeError /\
  md5_hexdigest "Game-GRP" ∈ OLD_HASH_SET (snd out).
Proof.
  intros Hlater Hnew out.
  destruct (game_raises md5_hexdigest seen rest Hlater Hnew _ _ nfo_down_raises)
    as [Hfst Hsnd].
  subst out. rewrite Hfst, Hsnd, nfo_down_keeps_seen.
  split; [reflexivity | set_solver].
Qed.

Lemma nfo_fetch_failure_raises_witness :
  let out :=
    handle_releases (fun s => s) production
      (servers up (Response 404 ""%string) uploaded (Response 200 "1"%string))
      painters [game] (after_scans {["Old-GRP"%string]}) in
  fst out = Raise AttributeError /\
  "Game-GRP"%string ∈ OLD_HASH_SET (snd out).
Proof.
  apply (nfo_fetch_failure_raises (fun s => s) {["Old-GRP"%string]} []).
  - apply non_empty_singleton_L.
  - rewrite elem_of_singleton. discriminate.
Defined.

(** An NFO that is empty, on the contrary, is skipped. *)
Lemma empty_nfo_is_skipped (s : gset string) :
  handle_release production
    (servers up (Response 200 ""%string) uploaded (Response 200 "1"%string))
    painters game (after_scans s)
  = (Ok Next,
     cache_release "Game-GRP" (Some game_details)
       (add_request (Request "NFO" "get" game_nfo_url)
          (add_request (Request "DET" "get" (SRRDB_RELEASE_URL "Game-GRP"))
             (after_scans s)))).
Proof. vm_compute. reflexivity. Qed.

Lemma tweet_rejected_raises (s : gset string) :
  fst (handle_release production
         (servers up (Response 200 game_nfo) uploaded (Response 403 ""%string))
         painters game (after_scans s)) = Raise TypeError.
Proof. vm_compute. reflexivity. Qed.

Lemma tweet_rejected_state (s : gset string) :
  let w := snd (handle_release production
                  (servers up (Response 200 game_nfo) uploaded (Response 403 ""%string))
                  painters game (after_scans s)) in
  map info_title (mongo w) = ["Game-GRP"%string] /\
  map caller_name (requests w)
  = ["TWT"; "UMD"; "UMD"; "UMD"; "UMD"; "UMD"; "UMD"; "RNR"; "NFO"; "DET"]%string /\
  slept w = O.
Proof. vm_compute. auto. Qed.

(** A rejected upload of the rendered NFO, on the contrary, skips the
    release: nothing is stored or posted. *)
Lemma upload_rejected_is_skipped (s : gset string) :
  let out := handle_release production
               (servers up (Response 200 game_nfo) (Response 500 []) (Response 200 "1"%string))
               painters game (after_scans s) in
  fst out = Ok Next /\ mongo (snd out) = [] /\
  map caller_name (requests (snd out)) = ["RNR"; "NFO"; "DET"]%string.
Proof. vm_compute. auto. Qed.

(** C6: a rejected post does not skip to the next release.  The upload
    and the record of the release stay, but [handle_releases] subscripts
    the absent answer and raises, and the exception ends the loop over the
    releases, those of [rest] included. *)
Theorem announce_rejected_raises (md5_hexdigest : string -> string)
    (seen : gset string) (rest : list candidate) :
  seen <> ∅ -> md5_hexdigest "Game-GRP" ∉ seen ->
  let out :=
    handle_releases md5_hexdigest production
      (servers up (Response 200 game_nfo) uploaded (Response 403 ""%string))
      painters (game :: rest) (after_scans seen) in
  fst out = Raise TypeError /\
  map info_title (mongo (snd out)) = ["Game-GRP"%string] /\
  map caller_name (requests (snd out))
  = ["TWT"; "UMD"; "UMD"; "UMD"; "UMD"; "UMD"; "UMD"; "RNR"; "NFO"; "DET"]%string /\
  slept (snd out) = O.
Proof.
  intros Hlater Hnew out.
  destruct (game_raises md5_hexdigest seen rest Hlater Hnew _ _ tweet_rejected_raises)
    as [Hfst Hsnd].
  subst out. rewrite Hfst, Hsnd. split; [reflexivity|]. apply tweet_rejected_state.
Qed.

Lemma announce_rejected_raises_witness :
  let out :=
    handle_releases (fun s => s) production
      (servers up (Response 200 game_nfo) uploaded (Response 403 ""%string))
      painters [game] (after_scans {["Old-GRP"%string]}) in
  fst out = Raise TypeError /\
  map info_title (mongo (snd out)) = ["Game-GRP"%string] /\
  map caller_name (requests (snd out))
  = ["TWT"; "UMD"; "UMD"; "UMD"; "UMD"; "UMD"; "UMD"; "RNR"; "NFO"; "DET"]%string /\
  slept (snd out) = O.
Proof.
  apply (announce_rejected_raises (fun s => s) {["Old-GRP"%string]} []).
  - apply non_empty_singleton_L.
  - rewrite elem_of_singleton. discriminate.
Defined.

Lemma make_twitter_post_no_hyphen_witness :
  uploader (info_title plain_info) = info_title plain_info /\
  text (make_twitter_post plain_info) = post_text (info_title plain_info) plain_info.
Proof.
  apply make_twitter_post_no_hyphen. cbn. intuition discriminate.
Defined.

(** * Further properties *)

(** ** The deduplicator: what it records and what it lets through *)

Section Generator.

Variable md5_hexdigest : string -> string.
Variable cfg : config.

Lemma new_releases_seen (initial : bool) (releases : list candidate) :
  forall seen,
    snd (new_releases md5_hexdigest initial releases seen)
    = list_to_set (map (release_hash md5_hexdigest) releases) ∪ seen.
Proof.
  induction releases as [|r rest IH]; intros seen.
  - cbn. set_solver.
  - cbn [new_releases map list_to_set]. destruct initial.
    + rewrite IH. set_solver.
    + destruct (decide (release_hash md5_hexdigest r ∈ seen)) as [Hseen|Hnew].
      * rewrite IH. set_solver.
      * specialize (IH ({[release_hash md5_hexdigest r]} ∪ seen)).
        destruct (new_releases md5_hexdigest false rest
                    ({[release_hash md5_hexdigest r]} ∪ seen)) as [news seen'].
        cbn [snd] in *. rewrite IH. set_solver.
Qed.

Lemma new_releases_initial (releases : list candidate) :
  forall seen, fst (new_releases md5_hexdigest true releases seen) = [].
Proof.
  induction releases as [|r rest IH]; intros seen; [reflexivity|].
  cbn [new_releases]. apply IH.
Qed.

(** X1: whatever the mode, a run of the generator to its end records the
    key of every release of the scan, and nothing else. *)
Theorem find_new_releases_records_all (releases : list candidate)
    (seen : gset string) :
  snd (find_new_releases md5_hexdigest cfg releases seen)
  = list_to_set (map (release_hash md5_hexdigest) releases) ∪ seen.
Proof. apply new_releases_seen. Qed.

(** X2: the cold start.  Outside of the single-pass mode, the first scan
    seen with an empty set yields no release at all. *)
Theorem find_new_releases_cold_start (releases : list candidate) :
  debug cfg = false ->
  fst (find_new_releases md5_hexdigest cfg releases ∅) = [].
Proof.
  intros Hd. unfold find_new_releases, is_initial, DEBUG. rewrite Hd.
  rewrite bool_decide_eq_true_2 by reflexivity. apply new_releases_initial.
Qed.

Lemma new_releases_sublist (initial : bool) (releases : list candidate) :
  forall seen,
    sublist (fst (new_releases md5_hexdigest initial releases seen)) releases.
Proof.
  induction releases as [|r rest IH]; intros seen; [constructor|].
  cbn [new_releases]. destruct initial.
  - apply sublist_cons, IH.
  - destruct (decide (release_hash md5_hexdigest r ∈ seen)).
    + apply sublist_cons, IH.
    + specialize (IH ({[release_hash md5_hexdigest r]} ∪ seen)).
      destruct (new_releases md5_hexdigest false rest
                  ({[release_hash md5_hexdigest r]} ∪ seen)) as [news seen'].
      cbn [fst] in *. apply sublist_skip, IH.
Qed.

Lemma new_releases_complete (releases : list candidate) :
  forall seen c,
    In c releases -> release_hash md5_hexdigest c ∉ seen ->
    exists c', In c' (fst (new_releases md5_hexdigest false releases seen)) /\
               release_hash md5_hexdigest c' = release_hash md5_hexdigest c.
Proof.
  induction releases as [|r rest IH]; intros seen c Hc Hnew; [contradiction|].
  cbn [new_releases].
  destruct (decide (release_hash md5_hexdigest r ∈ seen)) as [Hseen|Hfresh].
  - destruct Hc as [->|Hc]; [contradiction|]. apply IH; assumption.
  - pose proof (IH ({[release_hash md5_hexdigest r]} ∪ seen) c) as IHc.
    destruct (new_releases md5_hexdigest false rest
                ({[release_hash md5_hexdigest r]} ∪ seen)) as [news seen'].
    cbn [fst] in *.
    destruct (decide (release_hash md5_hexdigest c = release_hash md5_hexdigest r))
      as [Heq|Hne].
    + exists r. split; [left; reflexivity | symmetry; exact Heq].
    + destruct Hc as [->|Hc]; [congruence|].
      destruct IHc as (c' & Hc' & Hh); [exact Hc | set_solver|].
      exists c'. split; [right; exact Hc' | exact Hh].
Qed.

(** X3: after the cold start (or in the single-pass mode) the generator
    lets through, in the order of the scan, one release for every key of
    the scan that is not in the set. *)
Theorem find_new_releases_complete (releases : list candidate)
    (seen : gset string) :
  is_initial cfg seen = false ->
  sublist (fst (find_new_releases md5_hexdigest cfg releases seen)) releases /\
  forall c, In c releases -> release_hash md5_hexdigest c ∉ seen ->
    exists c', In c' (fst (find_new_releases md5_hexdigest cfg releases seen)) /\
               release_hash md5_hexdigest c' = release_hash md5_hexdigest c.
Proof.
  intros Hi. unfold find_new_releases. rewrite Hi.
  split; [apply new_releases_sublist | apply new_releases_complete].
Qed.

End Generator.

Lemma find_new_releases_cold_start_witness :
  fst (find_new_releases (fun s => s) production [game] ∅) = [].
Proof. apply find_new_releases_cold_start. reflexivity. Defined.

Lemma find_new_releases_complete_witness :
  sublist (fst (find_new_releases (fun s => s) production [game]
                  {["Old-GRP"%string]})) [game] /\
  forall c, In c [game] -> release_hash (fun s => s) c ∉ ({["Old-GRP"%string]} : gset string) ->
    exists c', In c' (fst (find_new_releases (fun s => s) production [game]
                             {["Old-GRP"%string]})) /\
               release_hash (fun s => s) c' = release_hash (fun s => s) c.
Proof.
  apply find_new_releases_complete. vm_compute. reflexivity.
Defined.

(** ** Masking: the value of the masked identifier *)

Lemma mask_land (v : Z) :
  Z.land v TITLE_ID_BASE_MASK = v mod 2 ^ 64 - v mod 2 ^ 13.
Proof.
  change TITLE_ID_BASE_MASK with (Z.ldiff (Z.ones 64) (Z.ones 13)).
  assert (H : Z.land v (Z.ldiff (Z.ones 64) (Z.ones 13))
              = Z.ldiff (Z.land v (Z.ones 64)) (Z.ones 13)).
  { apply Z.bits_inj'. intros i Hi.
    rewrite Z.land_spec, !Z.ldiff_spec, Z.land_spec.
    apply andb_assoc. }
  rewrite H, Z.land_ones, Z.ldiff_ones_r by lia.
  rewrite Z.shiftl_mul_pow2, Z.shiftr_div_pow2 by lia.
  pose proof (Z.div_mod (v mod 2 ^ 64) (2 ^ 13) ltac:(lia)) as Hdm.
  assert (Hmm : (v mod 2 ^ 64) mod 2 ^ 13 = v mod 2 ^ 13).
  { apply Z.mod_mod_divide. exists (2 ^ 51). reflexivity. }
  lia.
Qed.

Lemma fold_base (b : Z) (ds : list Z) : forall a,
  fold_left (fun x d => x * b + d) ds a
  = a * b ^ Z.of_nat (length ds) + fold_left (fun x d => x * b + d) ds 0.
Proof.
  induction ds as [|d ds IH]; intros a.
  - cbn. lia.
  - cbn [fold_left length]. rewrite IH, (IH (0 * b + d)).
    rewrite Nat2Z.inj_succ, Z.pow_succ_r by lia. ring.
Qed.

Lemma of_base_bounds (ds : list Z) :
  Forall (fun d => 0 <= d < 16) ds ->
  0 <= of_base 16 ds < 16 ^ Z.of_nat (length ds).
Proof.
  unfold of_base. induction ds as [|d ds IH] using rev_ind; intros H.
  - cbn. lia.
  - apply Forall_app in H as [Hds Hd]. apply Forall_inv in Hd.
    rewrite fold_left_app. cbn [fold_left].
    rewrite length_app, Nat2Z.inj_add. cbn [length].
    rewrite Z.pow_add_r by lia. change (16 ^ Z.of_nat 1) with 16.
    specialize (IH Hds). lia.
Qed.

Lemma hex_val_range (c : ascii) (d : Z) : hex_val c = Some d -> 0 <= d < 16.
Proof.
  unfold hex_val, between.
  destruct ((48 <=? code c) && (code c <=? 57)) eqn:H1;
    [intros [= <-]; lia|].
  destruct ((65 <=? code c) && (code c <=? 70)) eqn:H2;
    [intros [= <-]; lia|].
  destruct ((97 <=? code c) && (code c <=? 102)) eqn:H3;
    [intros [= <-]; lia | discriminate].
Qed.

Lemma hex_vals_range (s : list ascii) (ds : list Z) :
  hex_vals s = Some ds ->
  Forall (fun d => 0 <= d < 16) ds /\ length ds = length s.
Proof.
  revert ds. induction s as [|c s IH]; intros ds.
  - intros [= <-]. split; [constructor | reflexivity].
  - cbn [hex_vals]. destruct (hex_val c) as [d|] eqn:Hc; [|discriminate].
    destruct (hex_vals s) as [ds'|]; [|discriminate].
    intros [= <-]. destruct (IH ds' eq_refl) as [Hr Hl].
    split; [constructor; [exact (hex_val_range _ _ Hc) | exact Hr]|].
    cbn [length]. rewrite Hl. reflexivity.
Qed.

Lemma int16_bounds (s : list ascii) (v : Z) :
  int16 s = Some v -> 0 <= v < 16 ^ Z.of_nat (length s).
Proof.
  unfold int16. destruct s as [|c s]; [discriminate|].
  destruct (hex_vals (c :: s)) as [ds|] eqn:Hds; [|discriminate].
  intros [= <-]. destruct (hex_vals_range _ _ Hds) as [Hr Hl].
  rewrite <- Hl. apply of_base_bounds. exact Hr.
Qed.

(** X4: the masked identifier reads back as the value of the raw
    identifier cut to 64 bits with its low 13 bits cleared. *)
Theorem mask_chars_clears_low_bits (x : list ascii) (v : Z) :
  int16 x = Some v ->
  exists m, mask_chars x = Some m /\
            int16 m = Some (v mod 2 ^ 64 - v mod 2 ^ 13).
Proof.
  intros Hx. exists (masked_digits (Z.land v TITLE_ID_BASE_MASK)).
  split; [apply mask_chars_value; exact Hx|].
  rewrite int16_masked_digits by apply mask_nonneg.
  rewrite mask_land. reflexivity.
Qed.

Lemma mask_chars_clears_low_bits_witness :
  exists m, mask_chars (chars "0100ABCDEF123456") = Some m /\
            int16 m = Some (0x0100ABCDEF123456 mod 2 ^ 64
                            - 0x0100ABCDEF123456 mod 2 ^ 13).
Proof. apply mask_chars_clears_low_bits. reflexivity. Defined.

(** X5: two raw identifiers of at most 16 digits have the same masked
    identifier exactly when they differ in their low 13 bits only. *)
Theorem mask_chars_same_family (x y : list ascii) (v u : Z) :
  int16 x = Some v -> int16 y = Some u -> v < 2 ^ 64 -> u < 2 ^ 64 ->
  (mask_chars x = mask_chars y <-> v / 2 ^ 13 = u / 2 ^ 13).
Proof.
  intros Hx Hy Hv Hu.
  pose proof (int16_bounds _ _ Hx) as [Hv0 _].
  pose proof (int16_bounds _ _ Hy) as [Hu0 _].
  rewrite (mask_chars_value _ _ Hx), (mask_chars_value _ _ Hy), !mask_land.
  rewrite !(Z.mod_small _ (2 ^ 64)) by lia.
  pose proof (Z.div_mod v (2 ^ 13) ltac:(lia)) as Hdv.
  pose proof (Z.div_mod u (2 ^ 13) ltac:(lia)) as Hdu.
  pose proof (Z.mod_pos_bound v (2 ^ 13) ltac:(lia)) as Hmv.
  pose proof (Z.mod_pos_bound u (2 ^ 13) ltac:(lia)) as Hmu.
  split.
  - intros H.
    apply (f_equal (fun o => match o with Some m => int16 m | None => None end)) in H.
    rewrite !int16_masked_digits in H by lia.
    injection H as H. lia.
  - intros H. do 2 f_equal. lia.
Qed.

Lemma mask_chars_same_family_witness :
  mask_chars (chars "0100ABCDEF123456") = mask_chars (chars "0100ABCDEF122800")
  <-> 0x0100ABCDEF123456 / 2 ^ 13 = 0x0100ABCDEF122800 / 2 ^ 13.
Proof.
  apply mask_chars_same_family; [reflexivity | reflexivity | reflexivity | reflexivity].
Defined.

(** ** Masking: the shape of the masked identifier *)

Lemma to_base_aux_shape (b : Z) (fuel : nat) :
  2 <= b ->
  forall (k : nat) (n : Z) (acc : list Z),
    b ^ Z.of_nat k <= n < b ^ Z.of_nat (S k) -> n < 2 ^ Z.of_nat fuel ->
    exists tl, to_base_aux fuel b n acc = n / b ^ Z.of_nat k :: tl ++ acc /\
               length tl = k.
Proof.
  intros Hb. induction fuel as [|f IH]; intros k n acc Hn Hf.
  - exfalso. assert (0 < b ^ Z.of_nat k) by (apply Z.pow_pos_nonneg; lia).
    cbn in Hf. lia.
  - cbn [to_base_aux].
    assert (Hdm : n = b * (n / b) + n mod b) by (apply Z.div_mod; lia).
    assert (Hm : 0 <= n mod b < b) by (apply Z.mod_pos_bound; lia).
    assert (Hpos : 0 < b ^ Z.of_nat k) by (apply Z.pow_pos_nonneg; lia).
    destruct (Z.eqb_spec (n / b) 0) as [Hq|Hq].
    + destruct k as [|k].
      * exists []. cbn [app length]. split; [|reflexivity].
        change (b ^ Z.of_nat 0) with 1. rewrite Z.div_1_r. f_equal. lia.
      * exfalso. rewrite Nat2Z.inj_succ, Z.pow_succ_r in Hn by lia.
        assert (0 < b ^ Z.of_nat k) by (apply Z.pow_pos_nonneg; lia). nia.
    + destruct k as [|k].
      * exfalso. change (b ^ Z.of_nat 0) with 1 in Hn.
        change (b ^ Z.of_nat 1) with (b ^ 1) in Hn. rewrite Z.pow_1_r in Hn.
        apply Hq. apply Z.div_small. lia.
      * assert (Hk : 0 < b ^ Z.of_nat k) by (apply Z.pow_pos_nonneg; lia).
        destruct (IH k (n / b) (n mod b :: acc)) as (tl & Htl & Hlen).
        { rewrite !Nat2Z.inj_succ, !Z.pow_succ_r in Hn by lia.
          rewrite Nat2Z.inj_succ, Z.pow_succ_r by lia.
          split.
          - apply Z.div_le_lower_bound; lia.
          - apply Z.div_lt_upper_bound; lia. }
        { rewrite Nat2Z.inj_succ, Z.pow_succ_r in Hf by lia.
          assert (0 <= n / b) by (apply Z.div_pos; lia). nia. }
        exists (tl ++ [n mod b]). rewrite Htl. split.
        -- rewrite Nat2Z.inj_succ, Z.pow_succ_r by lia.
           rewrite Z.div_div by lia. rewrite <- app_assoc. reflexivity.
        -- rewrite length_app. cbn [length]. lia.
Qed.

Lemma to_base_shape (k : nat) (n : Z) :
  16 ^ Z.of_nat k <= n < 16 ^ Z.of_nat (S k) ->
  exists tl, to_base 16 n = n / 16 ^ Z.of_nat k :: tl /\ length tl = k.
Proof.
  intros Hn.
  assert (0 < 16 ^ Z.of_nat k) by (apply Z.pow_pos_nonneg; lia).
  destruct (to_base_aux_shape 16 (S (Z.to_nat (Z.log2 n))) ltac:(lia) k n [] Hn)
    as (tl & Htl & Hlen).
  { apply fuel_enough. lia. }
  exists tl. unfold to_base. rewrite Htl, app_nil_r. auto.
Qed.

Lemma int16_leading_01 (d : list ascii) :
  forallb is_hex d = true ->
  exists v, int16 (chars "01" ++ d) = Some v /\
            16 ^ Z.of_nat (length d) <= v < 2 * 16 ^ Z.of_nat (length d).
Proof.
  intros Hd. destruct (hex_vals_total d Hd) as [ds Hds].
  destruct (hex_vals_range _ _ Hds) as [Hr Hl].
  exists (of_base 16 (0 :: 1 :: ds)). split.
  - cbn [chars list_ascii_of_string app int16 hex_vals].
    change (hex_val "0") with (Some 0). change (hex_val "1") with (Some 1).
    rewrite Hds. reflexivity.
  - unfold of_base. cbn [fold_left]. change (0 * 16 + 0) with 0.
    change (0 * 16 + 1) with 1. rewrite fold_base, Hl.
    pose proof (of_base_bounds ds Hr) as Hb. unfold of_base in Hb.
    rewrite Hl in Hb. lia.
Qed.

(** X6: a raw identifier of 14 to 16 digits, as the extraction finds them
    (the characters 0 and 1, then hexadecimal digits), keeps its length and
    its two leading characters when it is masked. *)
Theorem mask_chars_keeps_length (d : list ascii) :
  forallb is_hex d = true -> (12 <= length d <= 14)%nat ->
  exists rest, mask_chars (chars "01" ++ d) = Some (chars "01" ++ rest) /\
               length rest = length d.
Proof.
  intros Hd Hlen. destruct (int16_leading_01 d Hd) as (v & Hv & Hlo & Hhi).
  rewrite (mask_chars_value _ _ Hv), mask_land.
  set (k := length d) in *.
  assert (Hpos : 0 < 16 ^ Z.of_nat k) by (apply Z.pow_pos_nonneg; lia).
  assert (Hw : 16 ^ Z.of_nat k <= v mod 2 ^ 64 - v mod 2 ^ 13 < 2 * 16 ^ Z.of_nat k).
  { pose proof (Z.div_mod v (2 ^ 13) ltac:(lia)) as Hdm.
    pose proof (Z.mod_pos_bound v (2 ^ 13) ltac:(lia)) as Hm.
    assert (Hk : k = 12%nat \/ k = 13%nat \/ k = 14%nat) by lia.
    destruct Hk as [Hk|[Hk|Hk]]; rewrite Hk in *;
      rewrite (Z.mod_small v (2 ^ 64)) by lia; lia. }
  destruct (to_base_shape k (v mod 2 ^ 64 - v mod 2 ^ 13)) as (tl & Htl & Htllen).
  { rewrite Nat2Z.inj_succ, Z.pow_succ_r by lia. lia. }
  assert (Hq : (v mod 2 ^ 64 - v mod 2 ^ 13) / 16 ^ Z.of_nat k = 1).
  { symmetry.
    apply (Z.div_unique _ _ 1 (v mod 2 ^ 64 - v mod 2 ^ 13 - 16 ^ Z.of_nat k));
      lia. }
  exists (upper (map digit_char tl)). unfold masked_digits.
  rewrite Htl, Hq. split; [reflexivity|].
  unfold upper. rewrite !length_map. exact Htllen.
Qed.

Lemma mask_chars_keeps_length_witness :
  exists rest,
    mask_chars (chars "01" ++ chars "00ABCDEF123456")
    = Some (chars "01" ++ rest) /\
    length rest = length (chars "00ABCDEF123456").
Proof.
  apply mask_chars_keeps_length; [reflexivity | cbn; lia].
Defined.

(** ** The parser of NFO files *)

Lemma find_title_id_masks (nfo t : list ascii) :
  find_title_id nfo = Some t -> exists m, mask_chars t = Some m.
Proof.
  intros H. destruct (find_title_id_hex _ _ H) as [Hne Hhex].
  destruct (int16_total _ Hne Hhex) as [v Hv].
  rewrite (mask_chars_value _ _ Hv). eauto.
Qed.

(** ** The uploader of a release with a hyphen *)

Lemma rfind_from_last (c : ascii) (s : list ascii) : forall i last,
  In c s ->
  exists pre post, s = pre ++ c :: post /\ ~ In c post /\
                   rfind_from c s i last = i + Z.of_nat (length pre).
Proof.
  induction s as [|x s IH]; intros i last Hin; [contradiction|].
  cbn [rfind_from].
  destruct (in_dec ascii_dec c s) as [Hs|Hs].
  - destruct (IH (i + 1) (if Ascii.eqb x c then i else last) Hs)
      as (pre & post & -> & Hpost & Hr).
    exists (x :: pre), post. rewrite Hr. cbn [length app].
    repeat split; [exact Hpost | lia].
  - destruct Hin as [->|Hin]; [|contradiction].
    exists [], s. rewrite Ascii.eqb_refl, rfind_from_absent by exact Hs.
    cbn [app length]. repeat split; [exact Hs | lia].
Qed.

(** X7: when the release name has a hyphen, the uploader of the
    announcement is what follows the last hyphen of the name: it has no
    hyphen, and it is empty when the name ends with one. *)
Theorem uploader_after_last_hyphen (title : string) :
  In "-"%char (chars title) ->
  exists before,
    chars title = before ++ "-"%char :: chars (uploader title) /\
    ~ In "-"%char (chars (uploader title)).
Proof.
  intros Hin.
  destruct (rfind_from_last "-" (chars title) 0 (-1) Hin)
    as (pre & post & Hs & Hpost & Hr).
  assert (Hu : chars (uploader title) = post).
  { unfold uploader, rfind, chars, str. rewrite list_ascii_of_string_of_list_ascii.
    fold (chars title). rewrite Hr, Hs. unfold py_slice_from.
    destruct (Z.ltb_spec (0 + Z.of_nat (length pre) + 1) 0) as [Hneg|_]; [lia|].
    replace (Z.to_nat (0 + Z.of_nat (length pre) + 1)) with (length (pre ++ ["-"%char]))
      by (rewrite length_app; cbn [length]; lia).
    change (pre ++ "-"%char :: post) with (pre ++ ["-"%char] ++ post).
    rewrite app_assoc. apply drop_app_length. }
  exists pre. rewrite Hu. split; [exact Hs | exact Hpost].
Qed.

Lemma uploader_after_last_hyphen_witness :
  exists before,
    chars "Game-GRP" = before ++ "-"%char :: chars (uploader "Game-GRP") /\
    ~ In "-"%char (chars (uploader "Game-GRP")).
Proof.
  apply uploader_after_last_hyphen.
  change (chars "Game-GRP") with (chars "Game" ++ "-"%char :: chars "GRP").
  apply in_elt.
Defined.

(** ** Sizes and their suffixes *)

Lemma rstrip_last_other (c x : ascii) (l : list ascii) :
  Ascii.eqb c x = false -> rstrip c (l ++ [x]) = l ++ [x].
Proof.
  intros H. unfold rstrip. rewrite rev_app_distr. cbn [rev app drop_while].
  rewrite H. change (x :: rev l) with ([x] ++ rev l).
  rewrite rev_app_distr, rev_involutive. reflexivity.
Qed.

Lemma rstrip_last_same (c : ascii) (l : list ascii) :
  rstrip c (l ++ [c]) = rstrip c l.
Proof.
  unfold rstrip. rewrite rev_app_distr. cbn [rev app drop_while].
  rewrite Ascii.eqb_refl. reflexivity.
Qed.

Lemma to_base_aux_app (b : Z) (fuel : nat) : forall n acc,
  to_base_aux fuel b n acc = to_base_aux fuel b n [] ++ acc.
Proof.
  induction fuel as [|f IH]; intros n acc; [reflexivity|].
  cbn [to_base_aux]. destruct (n / b =? 0); [reflexivity|].
  rewrite IH, (IH _ [n mod b]), <- app_assoc. reflexivity.
Qed.

Lemma to_base_last (b n : Z) :
  exists front, to_base b n = front ++ [n mod b].
Proof.
  unfold to_base. cbn [to_base_aux]. destruct (n / b =? 0).
  - exists []. reflexivity.
  - rewrite to_base_aux_app. eauto.
Qed.

Lemma digit_not_point (d : Z) :
  0 <= d < 10 -> Ascii.eqb "." (digit_char d) = false.
Proof.
  intros Hd.
  assert (H : d = 0 \/ d = 1 \/ d = 2 \/ d = 3 \/ d = 4 \/ d = 5 \/ d = 6 \/ d = 7
              \/ d = 8 \/ d = 9) by lia.
  repeat (destruct H as [->|H]; [reflexivity|]). subst d. reflexivity.
Qed.

Lemma str_of_Z_last (n : Z) :
  exists front d, str_of_Z n = front ++ [digit_char d] /\ 0 <= d < 10.
Proof.
  unfold str_of_Z. destruct (to_base_last 10 (Z.abs n)) as [front Hf].
  exists ((if n <? 0 then chars "-" else []) ++ map digit_char front),
         (Z.abs n mod 10).
  rewrite Hf, map_app, app_assoc. split; [reflexivity|].
  apply Z.mod_pos_bound. lia.
Qed.

Lemma format_2f_integer (n : Z) :
  format_2f (inject_Z n) = str_of_Z n ++ chars ".00".
Proof.
  unfold format_2f, inject_Z, str_of_Z. cbn [Qnum Qden].
  rewrite Z.div_1_r, Z.mod_1_r.
  change (1 <? 2 * 0) with false. change (2 * 0 =? 1) with false.
  cbn [orb andb].
  rewrite Z.div_mul, Z.mod_mul by lia.
  assert (Hs : (Z.abs n <? 0) = false) by (apply Z.ltb_ge; lia).
  rewrite Hs, (Z.abs_eq (Z.abs n)) by lia. cbn [app]. rewrite <- app_assoc. reflexivity.
Qed.

Lemma strip_integer (n : Z) :
  rstrip "." (rstrip "0" (format_2f (inject_Z n))) = str_of_Z n.
Proof.
  rewrite format_2f_integer.
  change (chars ".00") with (["."%char] ++ ["0"%char] ++ ["0"%char]).
  rewrite !app_assoc, !rstrip_last_same.
  rewrite (rstrip_last_other "0" ".") by reflexivity.
  rewrite rstrip_last_same.
  destruct (str_of_Z_last n) as (front & d & -> & Hd).
  apply rstrip_last_other, digit_not_point. exact Hd.
Qed.

Lemma float_of_small_int (n : Z) :
  Z.abs n < 2 ^ 53 -> float_of_int n = Some (inject_Z n).
Proof.
  intros Hn. unfold float_of_int.
  assert (Hl : Z.log2 (Z.abs n) - 52 <= 0).
  { destruct (Z.eq_dec (Z.abs n) 0) as [->|Hz]; [cbn; lia|].
    assert (Z.log2 (Z.abs n) < 53) by (apply Z.log2_lt_pow2; lia). lia. }
  destruct (Z.leb_spec (Z.log2 (Z.abs n) - 52) 0); [reflexivity | lia].
Qed.

(** X8: a size below 1024, a negative one included, is printed as the
    integer it is, followed by the suffix B. *)
Theorem humansize_bytes (n : Z) :
  - 2 ^ 53 < n < 1024 ->
  humansize n = Some (str (str_of_Z n ++ chars " B")).
Proof.
  intros Hn. unfold humansize, humansize_chars.
  change (length suffixes - 1)%nat with 5%nat.
  rewrite humansize_loop_step. unfold ge_1024.
  destruct (Z.leb_spec 1024 n) as [Hge|_]; [lia|].
  unfold to_float. rewrite float_of_small_int by lia.
  rewrite strip_integer. reflexivity.
Qed.

Lemma humansize_bytes_witness :
  humansize 1023 = Some (str (str_of_Z 1023 ++ chars " B")).
Proof. apply humansize_bytes. lia. Defined.






(** ** The cache of details, looked up twice *)

Lemma bind_inv {A B} (m : M A) (f : A -> M B) (w w' : world) (b : B) :
  (m ≫= f) w = (Ok b, w') ->
  exists a w1, m w = (Ok a, w1) /\ f a w1 = (Ok b, w').
Proof.
  unfold mbind, M_bind. destruct (m w) as [[a|e] w1]; [eauto | discriminate].
Qed.

Lemma request_url_state {A} (url caller method : string) (send : nat -> reply A)
    (w : world) :
  exists r, request_url url caller method send w
            = (Ok r, add_request (Request caller method url) w).
Proof.
  unfold request_url.
  destruct (send (length (requests w))) as [|status_code payload]; [eauto|].
  destruct ((200 <=? status_code) && (status_code <? 299)); eauto.
Qed.

Lemma get_details_entry (net : network) (name : string) (w : world) :
  exists d w1,
    get_details net name w = (Ok d, w1) /\
    CACHE_releases w1 !! name = Some d /\
    (forall net', get_details net' name w1 = (Ok d, w1)) /\
    (forall k, k <> name -> CACHE_releases w1 !! k = CACHE_releases w !! k).
Proof.
  destruct (CACHE_releases w !! name) as [cached|] eqn:Hc.
  - exists cached, w. rewrite (get_details_cached _ _ _ _ Hc).
    repeat split; [exact Hc | intros net'; apply get_details_cached; exact Hc].
  - destruct (request_url_state (SRRDB_RELEASE_URL name) "DET" "get"
                (fun t => srrdb_details net t name) w) as [d Hd].
    exists d. eexists. split.
    + unfold get_details.
      rewrite (bind_ok _ _ w w (CACHE_releases w)) by reflexivity. rewrite Hc.
      rewrite (bind_ok _ _ _ _ _ Hd). reflexivity.
    + cbn [cache_release add_request CACHE_releases]. split.
      * apply lookup_insert_eq.
      * split.
        -- intros net'. apply get_details_cached. apply lookup_insert_eq.
        -- intros k Hk. apply lookup_insert_ne. congruence.
Qed.


(** ** What [parse_nfo] returns, raises and caches *)

Lemma parse_nfo_fetched (net : network) (nfo_url : string) (w : world)
    (status_code : Z) (nfo : string) :
  download net (length (requests w)) nfo_url = Response status_code nfo ->
  (200 <=? status_code) && (status_code <? 299) = true ->
  parse_nfo net nfo_url w =
    let w1 := add_request (Request "NFO" "get" nfo_url) w in
    if bool_decide (nfo = ""%string) then (Ok None, w1)
    else match find_title_id (chars nfo) with
         | None => (Ok None, w1)
         | Some title_id =>
             match mask_chars title_id with
             | None => (Raise ValueError, w1)
             | Some masked =>
                 (Ok (Some (str title_id, str masked)),
                  if decide (is_Some (CACHE_nfos w !! str title_id)) then w1
                  else cache_nfo (str title_id) nfo w1)
             end
         end.
Proof.
  intros Hd Hs. unfold parse_nfo, request_url, mbind, M_bind. rewrite Hd, Hs.
  cbn zeta. destruct (bool_decide (nfo = ""%string)); [reflexivity|].
  destruct (find_title_id (chars nfo)) as [title_id|]; [|reflexivity].
  destruct (mask_chars title_id) as [masked|]; [|reflexivity].
  unfold get. cbn [add_request CACHE_nfos].
  destruct (decide (is_Some (CACHE_nfos w !! str title_id))); reflexivity.
Qed.

Lemma failed_or_fetched {A} (r : reply A) :
  failed r = true \/
  exists status_code payload,
    r = Response status_code payload /\
    (200 <=? status_code) && (status_code <? 299) = true.
Proof.
  destruct r as [|status_code payload]; [left; reflexivity|].
  cbn [failed].
  destruct ((200 <=? status_code) && (status_code <? 299)) eqn:Hs;
    [right; eauto | left; reflexivity].
Qed.

(** X11: [parse_nfo] raises exactly when the fetch of the file fails, and
    then it is [AttributeError]; on a fetched file, whatever its text, it
    returns. *)
Theorem parse_nfo_raises_iff (net : network) (nfo_url : string) (w : world)
    (e : exn) :
  fst (parse_nfo net nfo_url w) = Raise e <->
  e = AttributeError /\
  failed (download net (length (requests w)) nfo_url) = true.
Proof.
  destruct (failed_or_fetched (download net (length (requests w)) nfo_url))
    as [Hf|(status_code & nfo & Hd & Hs)].
  - rewrite (parse_nfo_failed_fetch _ _ _ Hf). cbn [fst]. split.
    + intros [= <-]. auto.
    + intros [-> _]. reflexivity.
  - rewrite (parse_nfo_fetched _ _ _ _ _ Hd Hs). cbn zeta.
    assert (Hnf : failed (download net (length (requests w)) nfo_url) = false).
    { rewrite Hd. cbn [failed]. rewrite Hs. reflexivity. }
    rewrite Hnf. split; [|intros [_ H]; discriminate].
    destruct (bool_decide (nfo = ""%string)); [discriminate|].
    destruct (find_title_id (chars nfo)) as [title_id|] eqn:Hfind; [|discriminate].
    destruct (find_title_id_masks _ _ Hfind) as [m Hm]. rewrite Hm. discriminate.
Qed.

Lemma parse_nfo_some (net : network) (nfo_url : string) (w w' : world)
    (title_id masked_title_id : string) :
  parse_nfo net nfo_url w = (Ok (Some (title_id, masked_title_id)), w') ->
  exists status_code nfo,
    download net (length (requests w)) nfo_url = Response status_code nfo /\
    find_title_id (chars nfo) = Some (chars title_id) /\
    mask_title_id title_id = Some masked_title_id /\
    CACHE_nfos w' !! title_id
    = Some (match CACHE_nfos w !! title_id with Some old => old | None => nfo end) /\
    CACHE_releases w' = CACHE_releases w.
Proof.
  destruct (failed_or_fetched (download net (length (requests w)) nfo_url))
    as [Hf|(status_code & nfo & Hd & Hs)].
  - rewrite (parse_nfo_failed_fetch _ _ _ Hf). discriminate.
  - rewrite (parse_nfo_fetched _ _ _ _ _ Hd Hs). cbn zeta.
    destruct (bool_decide (nfo = ""%string)); [discriminate|].
    destruct (find_title_id (chars nfo)) as [t|] eqn:Hfind; [|discriminate].
    destruct (mask_chars t) as [m|] eqn:Hm; [|discriminate].
    intros [= <- <- <-]. exists status_code, nfo.
    assert (Ht : chars (str t) = t) by apply list_ascii_of_string_of_list_ascii.
    split; [exact Hd|]. split; [rewrite Ht; exact Hfind|].
    split; [unfold mask_title_id; rewrite Ht, Hm; reflexivity|].
    destruct (decide (is_Some (CACHE_nfos w !! str t))) as [[old Hold]|Hnone].
    + cbn [add_request CACHE_nfos CACHE_releases]. rewrite Hold. auto.
    + cbn [cache_nfo add_request CACHE_nfos CACHE_releases].
      rewrite lookup_insert_eq.
      destruct (CACHE_nfos w !! str t) as [old|] eqn:Hold;
        [exfalso; apply Hnone; eauto | auto].
Qed.

(** X12: when [parse_nfo] returns identifiers, the file was fetched, the
    raw identifier is the one that the pattern finds in its text, the
    masked one is its mask, and the cache of texts has an entry for the raw
    identifier: the text that was there before, or else the fetched one. *)
Theorem parse_nfo_identifiers (net : network) (nfo_url : string) (w w' : world)
    (title_id masked_title_id : string) :
  parse_nfo net nfo_url w = (Ok (Some (title_id, masked_title_id)), w') ->
  exists status_code nfo,
    download net (length (requests w)) nfo_url = Response status_code nfo /\
    find_title_id (chars nfo) = Some (chars title_id) /\
    mask_title_id title_id = Some masked_title_id /\
    CACHE_nfos w' !! title_id
    = Some (match CACHE_nfos w !! title_id with Some old => old | None => nfo end) /\
    CACHE_releases w' = CACHE_releases w.
Proof. apply parse_nfo_some. Qed.

Lemma parse_nfo_identifiers_witness :
  let net := servers up (Response 200 game_nfo) uploaded (Response 200 "1"%string) in
  exists status_code nfo,
    download net (length (requests start)) game_nfo_url = Response status_code nfo /\
    find_title_id (chars nfo) = Some (chars "0100ABCDEF123456") /\
    mask_title_id "0100ABCDEF123456" = Some "0100ABCDEF122000"%string /\
    CACHE_nfos (snd (parse_nfo net game_nfo_url start)) !! "0100ABCDEF123456"%string
    = Some (match CACHE_nfos start !! "0100ABCDEF123456"%string with
            | Some old => old
            | None => nfo
            end) /\
    CACHE_releases (snd (parse_nfo net game_nfo_url start)) = CACHE_releases start.
Proof.
  intros net.
  apply (parse_nfo_identifiers net game_nfo_url start
           (snd (parse_nfo net game_nfo_url start))).
  vm_compute. reflexivity.
Defined.

(** ** The record of a release *)

Lemma get_details_only_releases (net : network) (name : string) (w w1 : world)
    (d : option details) :
  get_details net name w = (Ok d, w1) -> CACHE_nfos w1 = CACHE_nfos w.
Proof.
  intros H. unfold get_details in H.
  rewrite (bind_ok _ _ w w (CACHE_releases w)) in H by reflexivity.
  destruct (CACHE_releases w !! name) as [cached|].
  - injection H as _ <-. reflexivity.
  - destruct (request_url_state (SRRDB_RELEASE_URL name) "DET" "get"
                (fun t => srrdb_details net t name) w) as [r Hr].
    rewrite (bind_ok _ _ _ _ _ Hr) in H. injection H as _ <-. reflexivity.
Qed.

Lemma get_info_some (net : network) (name : string) (w w' : world)
    (i : release_info) :
  get_info net name w = (Ok (Some i), w') ->
  info_title i = name /\
  mask_title_id (info_tid i) = Some (info_masked_tid i) /\
  info_thumb i = TINFOIL_URL (info_masked_tid i) /\
  info_media i = [] /\
  (exists d first archived,
     CACHE_releases w' !! name = Some (Some d) /\
     files d !! 0%nat = Some first /\
     info_nfo i = SRRDB_FILE_URL name first /\
     archived_files d !! 0%nat = Some archived /\
     humansize (file_size archived) = Some (info_size i) /\
     info_crc i = file_crc archived) /\
  exists nfo, CACHE_nfos w' !! info_tid i = Some nfo.
Proof.
  intros H. unfold get_info in H.
  apply bind_inv in H as (d & w1 & Hdet & H).
  destruct d as [d|]; [|discriminate].
  destruct (files d !! 1%nat) as [second|]; [|discriminate].
  destruct (files d !! 0%nat) as [first|] eqn:Hfirst; [|discriminate].
  apply bind_inv in H as (parsed & w2 & Hparse & H).
  destruct parsed as [[title_id masked_title_id]|]; [|discriminate].
  destruct (archived_files d !! 0%nat) as [archived|] eqn:Harch; [|discriminate].
  destruct (humansize (file_size archived)) as [size|] eqn:Hsize; [|discriminate].
  injection H as <- <-.
  apply parse_nfo_some in Hparse
    as (status_code & nfo & _ & _ & Hmask & Hcached & Hrel).
  destruct (get_details_entry net name w) as (d' & w1' & Hdet' & Hentry & _ & _).
  rewrite Hdet in Hdet'. injection Hdet' as <- <-.
  cbn [info_title info_tid info_masked_tid info_thumb info_media info_nfo
       info_size info_crc].
  repeat split; try assumption.
  - exists d, first, archived. rewrite Hrel.
    repeat split; first [assumption | reflexivity].
  - eauto.
Qed.

(** X13: the record that [get_info] returns carries the name it was asked
    for, the mask of its own raw identifier, the thumbnail address of that
    mask, the address of the first file, the size and the checksum of the
    first archived file of the cached details, and no media; and the cache
    of texts has the NFO of its raw identifier. *)
Theorem get_info_record (net : network) (name : string) (w w' : world)
    (i : release_info) :
  get_info net name w = (Ok (Some i), w') ->
  info_title i = name /\
  mask_title_id (info_tid i) = Some (info_masked_tid i) /\
  info_thumb i = TINFOIL_URL (info_masked_tid i) /\
  info_media i = [] /\
  (exists d first archived,
     CACHE_releases w' !! name = Some (Some d) /\
     files d !! 0%nat = Some first /\
     info_nfo i = SRRDB_FILE_URL name first /\
     archived_files d !! 0%nat = Some archived /\
     humansize (file_size archived) = Some (info_size i) /\
     info_crc i = file_crc archived) /\
  exists nfo, CACHE_nfos w' !! info_tid i = Some nfo.
Proof. apply get_info_some. Qed.

(** X14: after [get_info] has returned a record, rendering it finds the
    text of the NFO in the cache: [render_with] raises nothing but what the
    backend raises, and changes no state. *)
Theorem render_after_get_info (net : network) (name : string) (w w' : world)
    (i : release_info) :
  get_info net name w = (Ok (Some i), w') ->
  exists nfo, CACHE_nfos w' !! info_tid i = Some nfo /\
    forall backend, render_with backend i w' = (backend nfo, w').
Proof.
  intros H. apply get_info_some in H as (_ & _ & _ & _ & _ & nfo & Hnfo).
  exists nfo. split; [exact Hnfo|]. intros backend.
  unfold render_with, mbind, M_bind, get. cbn beta iota. rewrite Hnfo.
  reflexivity.
Qed.

(** X15: a release whose details list fewer than two files is not
    skipped: [get_info] reads the second file first and raises
    [IndexError], whether the details come from the cache or from the
    server. *)
Theorem get_info_single_file (net : network) (name : string) (w w1 : world)
    (d : details) :
  get_details net name w = (Ok (Some d), w1) ->
  (length (files d) < 2)%nat ->
  get_info net name w = (Raise IndexError, w1).
Proof.
  intros Hdet Hlen. unfold get_info. rewrite (bind_ok _ _ _ _ _ Hdet).
  rewrite (lookup_ge_None_2 (files d) 1) by lia. reflexivity.
Qed.

Lemma get_info_record_witness :
  let net := servers up (Response 200 game_nfo) uploaded (Response 200 "1"%string) in
  let w' := snd (get_info net "Game-GRP" start) in
  info_title game_info = "Game-GRP"%string /\
  mask_title_id (info_tid game_info) = Some (info_masked_tid game_info) /\
  info_thumb game_info = TINFOIL_URL (info_masked_tid game_info) /\
  info_media game_info = [] /\
  (exists d first archived,
     CACHE_releases w' !! "Game-GRP"%string = Some (Some d) /\
     files d !! 0%nat = Some first /\
     info_nfo game_info = SRRDB_FILE_URL "Game-GRP" first /\
     archived_files d !! 0%nat = Some archived /\
     humansize (file_size archived) = Some (info_size game_info) /\
     info_crc game_info = file_crc archived) /\
  exists nfo, CACHE_nfos w' !! info_tid game_info = Some nfo.
Proof.
  intros net w'. apply (get_info_record net "Game-GRP" start w' game_info).
  vm_compute. reflexivity.
Defined.

Lemma render_after_get_info_witness :
  let net := servers up (Response 200 game_nfo) uploaded (Response 200 "1"%string) in
  let w' := snd (get_info net "Game-GRP" start) in
  exists nfo, CACHE_nfos w' !! info_tid game_info = Some nfo /\
    forall backend, render_with backend game_info w' = (backend nfo, w').
Proof.
  intros net w'. apply (render_after_get_info net "Game-GRP" start w' game_info).
  vm_compute. reflexivity.
Defined.

Lemma get_info_single_file_witness :
  let net := servers lone (Response 200 game_nfo) uploaded (Response 200 "1"%string) in
  get_info net "Game-GRP" start
  = (Raise IndexError, snd (get_details net "Game-GRP" start)).
Proof.
  intros net. apply (get_info_single_file net "Game-GRP" start _ lone_details).
  - vm_compute. reflexivity.
  - cbn. lia.
Defined.

(** ** The images of an announcement *)



(** ** States only grow *)

Lemma grows_refl (w : world) : grows w w.
Proof. unfold grows. repeat split; reflexivity. Qed.

Lemma grows_trans (w1 w2 w3 : world) : grows w1 w2 -> grows w2 w3 -> grows w1 w3.
Proof.
  intros (A1 & A2 & A3 & A4 & A5 & A6) (B1 & B2 & B3 & B4 & B5 & B6).
  unfold grows. repeat split; first [etrans; eassumption | lia].
Qed.

Lemma grows_add_request (r : request) (w : world) : grows w (add_request r w).
Proof.
  unfold grows. cbn. repeat split; try reflexivity. apply suffix_cons_r. reflexivity.
Qed.

Lemma steady_ret {A} (a : A) : steady (mret a).
Proof. intros w. apply grows_refl. Qed.

Lemma steady_raise {A} (e : exn) : steady (@raise A e).
Proof. intros w. apply grows_refl. Qed.

Lemma steady_lift {A} (o : outcome A) : steady (lift o).
Proof. intros w. apply grows_refl. Qed.

Lemma steady_get {A} (f : world -> A) : steady (get f).
Proof. intros w. apply grows_refl. Qed.

Lemma steady_modify (f : world -> world) :
  (forall w, grows w (f w)) -> steady (modify f).
Proof. intros Hf w. apply Hf. Qed.

Lemma steady_bind {A B} (m : M A) (f : A -> M B) :
  steady m -> (forall a, steady (f a)) -> steady (m ≫= f).
Proof.
  intros Hm Hf w. unfold mbind, M_bind. specialize (Hm w).
  destruct (m w) as [[a|e] w1]; cbn [snd] in *; [|exact Hm].
  apply (grows_trans _ _ _ Hm), Hf.
Qed.

Lemma steady_request_url {A} (url caller method : string) (send : nat -> reply A) :
  steady (request_url url caller method send).
Proof.
  intros w. destruct (request_url_state url caller method send w) as [r ->].
  apply grows_add_request.
Qed.

Lemma steady_add_seen (h : string) : steady (modify (add_seen h)).
Proof.
  apply steady_modify. intros w. unfold grows. cbn.
  repeat split; try reflexivity. apply union_subseteq_r.
Qed.

Lemma steady_insert_one (i : release_info) : steady (modify (insert_one i)).
Proof.
  apply steady_modify. intros w. unfold grows. cbn.
  repeat split; try reflexivity. apply suffix_cons_r. reflexivity.
Qed.

Lemma steady_sleep : steady sleep.
Proof.
  apply steady_modify. intros w. unfold grows. cbn.
  repeat split; try reflexivity. lia.
Qed.

Ltac steady_step :=
  first
    [ apply steady_ret | apply steady_raise | apply steady_lift | apply steady_get
    | apply steady_request_url | apply steady_add_seen | apply steady_insert_one
    | apply steady_sleep
    | apply steady_bind; [|intros ?]
    | match goal with
      | |- steady (match ?x with _ => _ end) => destruct x
      end ].

Section Growth.

Variable md5_hexdigest : string -> string.
Variable cfg : config.
Variable net : network.
Variable backends : renderers.

Lemma steady_get_details (release_name : string) :
  steady (get_details net release_name).
Proof.
  intros w. destruct (get_details_entry net release_name w)
    as (d & w1 & Hrun & _ & _ & _).
  pose proof Hrun as Hrun'. unfold get_details in Hrun'.
  rewrite (bind_ok _ _ w w (CACHE_releases w)) in Hrun' by reflexivity.
  rewrite Hrun. cbn [snd].
  destruct (CACHE_releases w !! release_name) as [cached|] eqn:Hc.
  - injection Hrun' as _ <-. apply grows_refl.
  - destruct (request_url_state (SRRDB_RELEASE_URL release_name) "DET" "get"
                (fun t => srrdb_details net t release_name) w) as [r Hr].
    rewrite (bind_ok _ _ _ _ _ Hr) in Hrun'. injection Hrun' as _ <-.
    unfold grows. cbn. repeat split; try reflexivity.
    + apply insert_subseteq. exact Hc.
    + apply suffix_cons_r. reflexivity.
Qed.

Lemma steady_parse_nfo (nfo_url : string) : steady (parse_nfo net nfo_url).
Proof.
  intros w.
  destruct (failed_or_fetched (download net (length (requests w)) nfo_url))
    as [Hf|(status_code & nfo & Hd & Hs)].
  - rewrite (parse_nfo_failed_fetch _ _ _ Hf). apply grows_add_request.
  - rewrite (parse_nfo_fetched _ _ _ _ _ Hd Hs). cbn zeta.
    destruct (bool_decide (nfo = ""%string)); [apply grows_add_request|].
    destruct (find_title_id (chars nfo)) as [t|]; [|apply grows_add_request].
    destruct (mask_chars t) as [m|]; [|apply grows_add_request].
    cbn [snd].
    destruct (decide (is_Some (CACHE_nfos w !! str t))) as [Hsome|Hnone];
      [apply grows_add_request|].
    unfold grows. cbn. repeat split; try reflexivity.
    + apply insert_subseteq. destruct (CACHE_nfos w !! str t) eqn:Hl;
        [exfalso; apply Hnone; eauto | reflexivity].
    + apply suffix_cons_r. reflexivity.
Qed.

Lemma steady_get_info (release_name : string) :
  steady (get_info net release_name).
Proof.
  unfold get_info.
  apply steady_bind; [apply steady_get_details|]. intros d.
  destruct d as [d|]; [|apply steady_ret].
  destruct (files d !! 1%nat); [|apply steady_raise].
  destruct (files d !! 0%nat); [|apply steady_raise].
  apply steady_bind; [apply steady_parse_nfo|]. intros parsed.
  repeat steady_step.
Qed.

Lemma steady_upload_media_loop (title_id : string)
    (images : list (string * option string)) :
  forall media, steady (upload_media_loop net title_id images media).
Proof.
  induction images as [|[image_type image] rest IH]; intros media;
    cbn [upload_media_loop]; repeat steady_step; apply IH.
Qed.

Lemma steady_post_to_twitter (i : release_info) : steady (post_to_twitter net i).
Proof.
  unfold post_to_twitter, upload_media.
  apply steady_bind; [|intros i'; repeat steady_step].
  apply steady_bind; [apply steady_upload_media_loop | intros media; repeat steady_step].
Qed.

Lemma steady_handle_release (r : candidate) :
  steady (handle_release cfg net backends r).
Proof.
  unfold handle_release.
  destruct (negb (hasNFO r)); [apply steady_ret|].
  apply steady_bind; [apply steady_get_info|]. intros info.
  destruct info as [release_info|]; [|apply steady_ret].
  apply steady_bind; [repeat steady_step|]. intros [mode backend].
  apply steady_bind; [unfold render_with; repeat steady_step|]. intros buffer.
  apply steady_bind; [unfold upload_nfo; repeat steady_step|].
  intros [uploaded release_info'].
  destruct (falsy uploaded); [apply steady_ret|].
  apply steady_bind; [unfold add_to_mongo; repeat steady_step|]. intros _.
  apply steady_bind; [apply steady_post_to_twitter|]. intros [[post response] i'].
  repeat steady_step.
Qed.

Lemma steady_for_new_releases (body : candidate -> M control) (initial : bool) :
  (forall r, steady (body r)) ->
  forall releases, steady (for_new_releases md5_hexdigest body initial releases).
Proof.
  intros Hbody. induction releases as [|r rest IH]; [apply steady_ret|].
  cbn [for_new_releases].
  apply steady_bind; [apply steady_get|]. intros seen.
  destruct initial.
  - apply steady_bind; [apply steady_add_seen | intros _; exact IH].
  - destruct (decide (release_hash md5_hexdigest r ∈ seen)); [exact IH|].
    apply steady_bind; [apply steady_add_seen|]. intros _.
    apply steady_bind; [apply Hbody|]. intros [|]; [exact IH | apply steady_ret].
Qed.

Lemma steady_main_loop (cycles : nat) :
  steady (main_loop md5_hexdigest cfg net backends cycles).
Proof.
  induction cycles as [|n IH]; [apply steady_ret|].
  cbn [main_loop].
  apply steady_bind; [unfold scan_srrdb; repeat steady_step|]. intros releases.
  apply steady_bind.
  - unfold handle_releases. apply steady_bind; [apply steady_get|]. intros seen.
    apply steady_for_new_releases. apply steady_handle_release.
  - intros _. destruct (debug cfg); [apply steady_ret|].
    apply steady_bind; [apply steady_sleep | intros _; exact IH].
Qed.

(** X17: whatever the servers answer and however a run of [main_loop]
    ends, with an exception too, the state has only grown: every key seen
    is still in the set, every entry of the two caches is still there with
    the value it had, and the requests sent, the documents stored and the
    sleeps are the earlier ones with more added. *)
Theorem main_loop_grows (cycles : nat) (w : world) :
  grows w (snd (main_loop md5_hexdigest cfg net backends cycles w)).
Proof. apply steady_main_loop. Qed.

End Growth.

(** ** Cycles that announce nothing *)

Section Quiet.

Variable md5_hexdigest : string -> string.
Variable cfg : config.
Variable net : network.
Variable backends : renderers.

Lemma scan_srrdb_empty (w : world) :
  srrdb_scan net (length (requests w)) = Response 200 [] ->
  scan_srrdb net w = (Ok [], add_request (Request "SCN" "get" SRRDB_SCAN_URL) w).
Proof.
  intros Hs. unfold scan_srrdb, request_url, mbind, M_bind. rewrite Hs. reflexivity.
Qed.

(** X18: while the scans are empty, outside of the single-pass mode, every
    cycle of [main_loop] sends its one request, sleeps once and changes
    nothing else, for as many cycles as one likes. *)
Theorem main_loop_idle (cycles : nat) :
  (forall t, srrdb_scan net t = Response 200 []) -> debug cfg = false ->
  forall w,
    main_loop md5_hexdigest cfg net backends cycles w
    = (Ok tt,
       Nat.iter cycles
         (fun w => one_more_sleep (add_request (Request "SCN" "get" SRRDB_SCAN_URL) w))
         w).
Proof.
  intros Hscan Hd. induction cycles as [|n IH]; intros w; [reflexivity|].
  rewrite Nat.iter_succ_r, <- IH. cbn [main_loop].
  rewrite (bind_ok _ _ _ _ _ (scan_srrdb_empty w (Hscan _))).
  unfold handle_releases.
  erewrite bind_ok; [|erewrite bind_ok; reflexivity].
  rewrite Hd. unfold sleep. erewrite bind_ok by reflexivity. reflexivity.
Qed.

Lemma for_new_releases_initial (body : candidate -> M control)
    (releases : list candidate) :
  forall w,
    for_new_releases md5_hexdigest body true releases w
    = (Ok tt,
       with_seen (list_to_set (map (release_hash md5_hexdigest) releases)
                    ∪ OLD_HASH_SET w) w).
Proof.
  induction releases as [|r rest IH]; intros w.
  - cbn. unfold with_seen. destruct w as [seen c1 c2 rq mg sl]. cbn.
    do 2 f_equal. set_solver.
  - cbn [for_new_releases].
    rewrite (bind_ok _ _ w w (OLD_HASH_SET w)) by reflexivity.
    erewrite bind_ok by reflexivity. rewrite IH.
    unfold with_seen. cbn. do 2 f_equal. set_solver.
Qed.

(** X19: the cold start of the loop.  Outside of the single-pass mode and
    with no key seen yet, [handle_releases] handles no release of the scan:
    it records their keys and sends, stores, posts and sleeps nothing. *)
Theorem handle_releases_cold_start (releases : list candidate) (w : world) :
  debug cfg = false -> OLD_HASH_SET w = ∅ ->
  handle_releases md5_hexdigest cfg net backends releases w
  = (Ok tt,
     with_seen (list_to_set (map (release_hash md5_hexdigest) releases)) w).
Proof.
  intros Hd Hs. unfold handle_releases.
  rewrite (bind_ok _ _ w w (OLD_HASH_SET w)) by reflexivity.
  unfold is_initial, DEBUG. rewrite Hd, Hs.
  rewrite bool_decide_eq_true_2 by reflexivity. cbn [andb negb].
  rewrite for_new_releases_initial, Hs. do 2 f_equal. set_solver.
Qed.

Lemma handle_releases_seen_before (r : candidate) (w : world) :
  release_hash md5_hexdigest r ∈ OLD_HASH_SET w ->
  handle_releases md5_hexdigest cfg net backends [r] w = (Ok tt, w).
Proof.
  intros Hseen. unfold handle_releases.
  rewrite (bind_ok _ _ w w (OLD_HASH_SET w)) by reflexivity.
  assert (Hi : is_initial cfg (OLD_HASH_SET w) = false).
  { unfold is_initial. rewrite bool_decide_eq_false_2; [reflexivity|]. set_solver. }
  rewrite Hi. cbn [for_new_releases].
  rewrite (bind_ok _ _ w w (OLD_HASH_SET w)) by reflexivity.
  destruct (decide (release_hash md5_hexdigest r ∈ OLD_HASH_SET w));
    [reflexivity | contradiction].
Qed.

(** X20: a release first met without an NFO is lost for good.  Its key is
    recorded although nothing is done for it, and a later entry of the same
    name, now with an NFO, is filtered out without a single request. *)
Theorem late_nfo_is_ignored (r r' : candidate) (w : world) :
  is_initial cfg (OLD_HASH_SET w) = false ->
  release_hash md5_hexdigest r ∉ OLD_HASH_SET w ->
  hasNFO r = false -> release r' = release r ->
  handle_releases md5_hexdigest cfg net backends [r] w
  = (Ok tt, add_seen (release_hash md5_hexdigest r) w) /\
  forall w2, release_hash md5_hexdigest r ∈ OLD_HASH_SET w2 ->
    handle_releases md5_hexdigest cfg net backends [r'] w2 = (Ok tt, w2).
Proof.
  intros Hi Hnew Hnfo Hname. split.
  - unfold handle_releases.
    rewrite (bind_ok _ _ w w (OLD_HASH_SET w)) by reflexivity. rewrite Hi.
    rewrite for_new_releases_fresh by exact Hnew.
    unfold handle_release. rewrite Hnfo. reflexivity.
  - intros w2 Hseen. apply handle_releases_seen_before.
    unfold release_hash in *. rewrite Hname. exact Hseen.
Qed.

End Quiet.

Lemma main_loop_idle_witness :
  main_loop (fun s => s) production idle painters 3 start
  = (Ok tt,
     Nat.iter 3
       (fun w => one_more_sleep (add_request (Request "SCN" "get" SRRDB_SCAN_URL) w))
       start).
Proof.
  apply main_loop_idle; [intros t; reflexivity | reflexivity].
Defined.

Lemma handle_releases_cold_start_witness :
  handle_releases (fun s => s) production unreachable painters [game] start
  = (Ok tt, with_seen (list_to_set (map (release_hash (fun s => s)) [game])) start).
Proof.
  apply handle_releases_cold_start; reflexivity.
Defined.

Lemma late_nfo_is_ignored_witness :
  handle_releases (fun s => s) production unreachable painters
    [Candidate "Game-GRP" false] (after_scans {["Old-GRP"%string]})
  = (Ok tt, add_seen (release_hash (fun s => s) (Candidate "Game-GRP" false))
              (after_scans {["Old-GRP"%string]})) /\
  forall w2,
    release_hash (fun s => s) (Candidate "Game-GRP" false) ∈ OLD_HASH_SET w2 ->
    handle_releases (fun s => s) production unreachable painters [game] w2
    = (Ok tt, w2).
Proof.
  apply late_nfo_is_ignored.
  - vm_compute. reflexivity.
  - cbn. rewrite elem_of_singleton. discriminate.
  - reflexivity.
  - reflexivity.
Defined.

(** ** The layout of the builtin renderer *)

Lemma split_char_cons (sep : ascii) (s : list ascii) :
  exists line lines, split_char sep s = line :: lines.
Proof.
  induction s as [|c s (line & lines & IH)]; [cbn; eauto|].
  cbn [split_char]. destruct (Ascii.eqb c sep); [eauto|]. rewrite IH. eauto.
Qed.

Lemma join_cons (sep : ascii) (first second : list ascii)
    (lines : list (list ascii)) :
  join sep (first :: second :: lines) = first ++ sep :: join sep (second :: lines).
Proof. reflexivity. Qed.

Lemma join_split (sep : ascii) (s : list ascii) :
  join sep (split_char sep s) = s.
Proof.
  induction s as [|c s IH]; [reflexivity|].
  cbn [split_char]. destruct (split_char_cons sep s) as (line & lines & Hs).
  rewrite Hs in *. destruct (Ascii.eqb_spec c sep) as [->|Hc].
  - rewrite join_cons, IH. reflexivity.
  - destruct lines as [|second lines].
    + cbn in *. rewrite IH. reflexivity.
    + rewrite join_cons in *. cbn [app]. rewrite IH. reflexivity.
Qed.

Lemma split_char_no_sep (sep : ascii) (s : list ascii) :
  Forall (fun line => ~ In sep line) (split_char sep s).
Proof.
  induction s as [|c s IH]; [repeat constructor; intros []|].
  cbn [split_char]. destruct (Ascii.eqb_spec c sep) as [->|Hc].
  - constructor; [intros [] | exact IH].
  - destruct (split_char sep s) as [|line lines]; [repeat constructor; intros [H|[]]; congruence|].
    inversion IH as [|? ? Hline Hlines]; subst.
    constructor; [|exact Hlines]. intros [H|H]; [congruence | contradiction].
Qed.

Lemma draw_lines_lookup (h : Z) (lines : list (list ascii)) : forall offset i,
  draw_lines h lines offset !! i
  = (fun line => ((0, offset + Z.of_nat i * h), line)) <$> lines !! i.
Proof.
  induction lines as [|line rest IH]; intros offset i; [reflexivity|].
  destruct i as [|i]; cbn [draw_lines].
  - cbn. do 3 f_equal. lia.
  - change ((?x :: ?l) !! S i) with (l !! i). rewrite IH.
    destruct (rest !! i); cbn; [do 3 f_equal; lia | reflexivity].
Qed.

Lemma draw_lines_texts (h : Z) (lines : list (list ascii)) : forall offset,
  map snd (draw_lines h lines offset) = lines.
Proof.
  induction lines as [|line rest IH]; intros offset; [reflexivity|].
  cbn [draw_lines map snd]. rewrite IH. reflexivity.
Qed.

Lemma fold_max_le (xs : list Z) : forall x,
  x <= fold_left Z.max xs x /\ Forall (fun y => y <= fold_left Z.max xs x) xs.
Proof.
  induction xs as [|y xs IH]; intros x; cbn [fold_left];
    [split; [lia | constructor]|].
  destruct (IH (Z.max x y)) as [H1 H2].
  split; [lia|]. constructor; [lia | exact H2].
Qed.

Lemma py_max_le (xs : list Z) (m : Z) :
  py_max xs = Some m -> Forall (fun y => y <= m) xs.
Proof.
  destruct xs as [|x xs]; [discriminate|]. intros [= <-].
  destruct (fold_max_le xs x) as [H1 H2]. constructor; assumption.
Qed.

Lemma render_nfo_layout_some (rc : render_config) (nfo : list ascii) :
  exists longest_line,
    py_max (map (fun line => Z.of_nat (length line)) (split_char (chr 10) nfo))
    = Some longest_line /\
    render_nfo_layout rc nfo
    = Some (Drawing (font_width rc * longest_line,
                     14 * Z.of_nat (length (split_char (chr 10) nfo)))
              (draw_lines (font_size rc) (split_char (chr 10) nfo) 0)).
Proof.
  unfold render_nfo_layout.
  destruct (split_char_cons (chr 10) nfo) as (line & lines & Hs). rewrite Hs.
  cbn [map py_max]. eauto.
Qed.

(** X21: the builtin renderer always has a layout (the longest line
    exists, an empty text having one empty line).  It draws the whole text:
    its lines have no newline and, joined by newlines, give the text back;
    and the line of index [i] is drawn at the left edge, [i] times the font
    size down. *)
Theorem render_nfo_layout_lines (rc : render_config) (nfo : list ascii) :
  exists d,
    render_nfo_layout rc nfo = Some d /\
    join (chr 10) (map snd (texts d)) = nfo /\
    Forall (fun line => ~ In (chr 10) line) (map snd (texts d)) /\
    forall i position line,
      texts d !! i = Some (position, line) ->
      position = (0, Z.of_nat i * font_size rc).
Proof.
  destruct (render_nfo_layout_some rc nfo) as (longest & _ & Hd).
  eexists. split; [exact Hd|]. cbn [texts]. rewrite draw_lines_texts.
  split; [apply join_split|]. split; [apply split_char_no_sep|].
  intros i position line. rewrite draw_lines_lookup.
  destruct (split_char (chr 10) nfo !! i); [intros [= <- _]; reflexivity | discriminate].
Qed.

(** X22: the image is as wide as the longest line at the font width per
    character, so that no line needs more; but it is 14 pixels high per
    line whatever the font size, so that the rows, which are the font size
    apart, all lie inside the image exactly when the font size is at most
    14. *)
Theorem render_nfo_layout_fits (rc : render_config) (nfo : list ascii)
    (d : drawing) :
  render_nfo_layout rc nfo = Some d ->
  (0 <= font_width rc ->
   forall i position line,
     texts d !! i = Some (position, line) ->
     font_width rc * Z.of_nat (length line) <= fst (canvas_size d)) /\
  (0 < font_size rc ->
   ((forall i x y line,
       texts d !! i = Some ((x, y), line) ->
       y + font_size rc <= snd (canvas_size d))
    <-> font_size rc <= 14)).
Proof.
  destruct (render_nfo_layout_some rc nfo) as (longest & Hmax & Hd).
  rewrite Hd. intros [= <-]. cbn [texts canvas_size fst snd].
  set (lines := split_char (chr 10) nfo) in *.
  split.
  - intros Hw i position line. rewrite draw_lines_lookup.
    destruct (lines !! i) as [l|] eqn:Hl; [|discriminate]. intros [= _ <-].
    apply py_max_le in Hmax. rewrite Forall_forall in Hmax.
    assert (Z.of_nat (length l) <= longest).
    { apply Hmax. apply list_elem_of_In, in_map_iff. exists l. split; [reflexivity|].
      apply list_elem_of_In, list_elem_of_lookup. eauto. }
    nia.
  - intros Hh. split.
    + intros Hall.
      destruct (split_char_cons (chr 10) nfo) as (line & rest & Hs).
      fold lines in Hs.
      assert (Hlast : exists l, lines !! (length lines - 1)%nat = Some l).
      { apply lookup_lt_is_Some. rewrite Hs. cbn [length]. lia. }
      destruct Hlast as [l Hl].
      specialize (Hall (length lines - 1)%nat 0
                    (0 + Z.of_nat (length lines - 1) * font_size rc) l).
      rewrite draw_lines_lookup, Hl in Hall. specialize (Hall eq_refl).
      assert (1 <= Z.of_nat (length lines)) by (rewrite Hs; cbn [length]; lia).
      nia.
    + intros H14 i x y line. rewrite draw_lines_lookup.
      destruct (lines !! i) as [l|] eqn:Hl; [|discriminate]. intros [= _ <- _].
      apply lookup_lt_Some in Hl. nia.
Qed.

Lemma render_nfo_layout_fits_witness :
  let rc := RenderConfig 8 16 in
  let d := Drawing (24, 28) [((0, 0), chars "ab"); ((0, 16), chars "cde")] in
  (0 <= font_width rc ->
   forall i position line,
     texts d !! i = Some (position, line) ->
     font_width rc * Z.of_nat (length line) <= fst (canvas_size d)) /\
  (0 < font_size rc ->
   ((forall i x y line,
       texts d !! i = Some ((x, y), line) ->
       y + font_size rc <= snd (canvas_size d))
    <-> font_size rc <= 14)).
Proof.
  intros rc d.
  apply (render_nfo_layout_fits rc (chars "ab" ++ [chr 10] ++ chars "cde") d).
  reflexivity.
Defined.

(** ** The same scan again *)

Section Repeat.

Variable md5_hexdigest : string -> string.
Variable cfg : config.
Variable net net' : network.
Variable backends : renderers.

Lemma for_new_releases_all_seen (body : candidate -> M control)
    (releases : list candidate) (w : world) :
  (forall r, In r releases -> release_hash md5_hexdigest r ∈ OLD_HASH_SET w) ->
  for_new_releases md5_hexdigest body false releases w = (Ok tt, w).
Proof.
  induction releases as [|r rest IH]; intros Hall; [reflexivity|].
  cbn [for_new_releases].
  rewrite (bind_ok _ _ w w (OLD_HASH_SET w)) by reflexivity.
  destruct (decide (release_hash md5_hexdigest r ∈ OLD_HASH_SET w)) as [_|Hn].
  - apply IH. intros r' Hr'. apply Hall. right. exact Hr'.
  - exfalso. apply Hn, Hall. left. reflexivity.
Qed.

(** X23: outside of the single-pass mode, once [handle_releases] has gone
    through a scan without an exception, the same scan again, or any part
    of it, is a no-op whatever the servers answer: no request, no state
    change. *)
Theorem handle_releases_again (releases again : list candidate) (w w1 : world) :
  debug cfg = false ->
  handle_releases md5_hexdigest cfg net backends releases w = (Ok tt, w1) ->
  again <> [] -> (forall r, In r again -> In r releases) ->
  handle_releases md5_hexdigest cfg net' backends again w1 = (Ok tt, w1).
Proof.
  intros Hd Hrun Hne Hsub.
  apply (handle_releases_seen _ _ _ _ _ _ _ Hd) in Hrun.
  unfold find_new_releases in Hrun. rewrite new_releases_seen in Hrun.
  assert (Hall : forall r, In r again ->
                           release_hash md5_hexdigest r ∈ OLD_HASH_SET w1).
  { intros r Hr. rewrite Hrun. apply elem_of_union_l, elem_of_list_to_set.
    apply list_elem_of_In, in_map, Hsub, Hr. }
  unfold handle_releases.
  rewrite (bind_ok _ _ w1 w1 (OLD_HASH_SET w1)) by reflexivity.
  assert (Hi : is_initial cfg (OLD_HASH_SET w1) = false).
  { unfold is_initial. rewrite bool_decide_eq_false_2; [reflexivity|].
    destruct again as [|r again']; [congruence|].
    specialize (Hall r (or_introl eq_refl)). set_solver. }
  rewrite Hi. apply for_new_releases_all_seen. exact Hall.
Qed.

End Repeat.

Lemma handle_releases_again_witness :
  handle_releases (fun s => s) production unreachable painters [game]
    (snd (handle_releases (fun s => s) production unreachable painters [game] start))
  = (Ok tt,
     snd (handle_releases (fun s => s) production unreachable painters [game] start)).
Proof.
  apply (handle_releases_again (fun s => s) production unreachable unreachable
           painters [game] [game] start).
  - reflexivity.
  - vm_compute. reflexivity.
  - discriminate.
  - intros r Hr. exact Hr.
Defined.
